(** * Gift analyst bot: portfolio rules, watch timers and state persistence

    A shallow embedding of [src/TgBot/tg_gift_analyst_bot.py].

    Python values are modelled as the code uses them: [int] as [Z], [str] as
    [string] (the UTF-8 bytes of the text), [Optional[T]] as [option T] with
    [None] for Python's [None], dictionaries keyed by strings as [gmap string],
    the dictionaries with a fixed set of keys (catalog entries, portfolio
    items, settings) as records.  The process-wide [STATE] object, the state
    file, the job queue, the requests sent to the platform and the console are
    the components of a [World] that every coroutine transforms.  *)

From Stdlib Require Import ZArith QArith.
From stdpp Require Import base option list strings pretty gmap.

Open Scope Z_scope.

(** ** Python values *)

(** A Python [float]: a finite value (the rational it denotes), an infinity
    or a NaN. *)
Inductive pyfloat : Type :=
| FFinite (q : Q)
| FInf (negative : bool)
| FNan.

(** Exceptions deriving from [Exception], each with its message. *)
Inductive exn : Type :=
| ValueError (msg : string)
| ValidationError (msg : string)
| TelegramError (msg : string).

(** [str(e)] *)
Definition str_exn (e : exn) : string :=
  match e with
  | ValueError m => m
  | ValidationError m => m
  | TelegramError m => m
  end.

(** Truth value of an [Optional[str]]: [None] and the empty string are false. *)
Definition truthy_str (o : option string) : bool :=
  match o with
  | Some s => negb (bool_decide (s = ""))
  | None => false
  end.

(** Truth value of an [Optional[bool]]. *)
Definition truthy_bool (o : option bool) : bool :=
  match o with
  | Some b => b
  | None => false
  end.

(** Truth value of an [Optional[int]]: [None] and [0] are false. *)
Definition truthy_int (o : option Z) : bool :=
  match o with
  | Some z => negb (bool_decide (z = 0))
  | None => false
  end.

(** The line feed of the ["\n"] escapes. *)
Definition nl : string := String (Ascii.ascii_of_nat 10) "".

(** The functions of the Python runtime that the bot calls on text.  [None]
    stands for the function raising ([ValueError] and the like). *)
Record Builtins : Type := {
  (** [s.isdigit()] *)
  str_isdigit : string → bool;
  (** [int(s)] *)
  int_of_str : string → option Z;
  (** [float(s)] *)
  float_of_str : string → option pyfloat;
  (** [f"{x}"] for a float *)
  str_of_float : pyfloat → string;
  (** [datetime.fromisoformat(s).timestamp()] *)
  fromisoformat_timestamp : string → option Q;
  (** the empty string is not an ISO date *)
  fromisoformat_timestamp_empty : fromisoformat_timestamp "" = None;
}.

(** ** Data model *)

(** [Gift] of the Bot API, the fields [build_catalog] reads. *)
Record ApiGift : Type := {
  g_id : string;
  g_emoji : option string;
  g_star_count : option Z;
  g_total_count : option Z;
  g_remaining_count : option Z;
  g_upgrade_star_count : option Z;
}.

(** An entry of the catalog list and of [STATE.last_catalog]. *)
Record CatalogEntry : Type := {
  c_id : string;
  c_title : string;
  star_count : option Z;
  c_total_count : option Z;
  remaining_count : option Z;
  upgrade_star_count : option Z;
}.

(** [OwnedGift] of the Bot API, the fields [fetch_portfolio] reads.  A
    [next_transfer_date] is held as its [isoformat()] text. *)
Inductive OwnedGift : Type :=
| OwnedGiftRegular (gift_id emoji : option string) (convert : option Z)
    (upgradable : option bool) (prepaid : option Z) (txt : option string)
| OwnedGiftUnique (gift_id emoji : option string) (rk : option Z)
    (transferable : option bool) (transfer : option Z)
    (next_transfer : option string).

(** A portfolio item of class ["regular"]. *)
Record RegularGift : Type := {
  r_gift_id : option string;
  r_gift_title : string;
  convert_star_count : option Z;
  can_be_upgraded : option bool;
  prepaid_upgrade_star_count : option Z;
  text : option string;
}.

(** A portfolio item of class ["unique"]. *)
Record UniqueGift : Type := {
  u_gift_id : option string;
  u_gift_title : string;
  rank : option Z;
  can_be_transferred : option bool;
  transfer_star_count : option Z;
  next_transfer_date : option string;
}.

(** A portfolio item, tagged by its ["class"] key.  The keys ["type"] and
    ["is_sticker"], which nothing reads, are left out. *)
Inductive GiftRecord : Type :=
| Regular (r : RegularGift)
| Unique (u : UniqueGift).

(** A portfolio snapshot; [fetch_portfolio] leaves ["ts"] out when the user
    has no connection. *)
Record Portfolio : Type := {
  total_count : Z;
  gifts : list GiftRecord;
  ts : option Q;
}.

(** One page of [getBusinessAccountGifts]. *)
Record GiftsPage : Type := {
  p_total_count : Z;
  p_gifts : list OwnedGift;
  next_offset : option string;
}.

Record MarketQuote : Type := {
  q_gift_id : string;
  floor_stars : option Z;
  last_trade_stars : option Z;
  q_ts : Q;
}.

Record Suggestion : Type := {
  title : string;
  details : string;
}.

(** The value of [STATE.settings] for one user.  [watch_cmd] stores a float
    under ["min_profit_pct"]; the value read back from a state file can be
    [None]. *)
Record Settings : Type := {
  min_profit_stars : Z;
  min_profit_pct : option pyfloat;
}.

(** [class State(BaseModel)].  Python does not check an assignment into one
    of the dictionaries against the annotation, and [on_business_connection]
    can store [None] in [chats]: its values are optional. *)
Record State : Type := {
  connections : gmap string string;
  chats : gmap string (option Z);
  settings : gmap string Settings;
  last_catalog : gmap string CatalogEntry;
  last_portfolio : gmap string Portfolio;
}.

(** The settings of one user in the state file: ["min_profit_pct"] is a
    number or [null]. *)
Record SettingsJson : Type := {
  j_min_profit_stars : Z;
  j_min_profit_pct : option Q;
}.

(** The JSON document in the state file: an object with the five keys, the
    values of ["chats"] being integers or [null]. *)
Record StateJson : Type := {
  j_connections : gmap string string;
  j_chats : gmap string (option Z);
  j_settings : gmap string SettingsJson;
  j_last_catalog : gmap string CatalogEntry;
  j_last_portfolio : gmap string Portfolio;
}.

(** A job of the job queue.  [job_id] is the identity of the job object; the
    callback of every job is [watch_tick] and [job_user_id] is its
    [data["user_id"]]. *)
Record Job : Type := {
  job_id : nat;
  job_name : string;
  job_interval : Z;
  job_user_id : Z;
}.

(** Requests sent to the messaging platform. *)
Inductive ApiCall : Type :=
| GetAvailableGifts
| GetBusinessAccountGifts (bc : string) (offset : option string)
| SendMessage (chat_id : option Z) (body : string)
| ReplyText (body : string).

(** Everything a coroutine of the bot can read or change. *)
Record World : Type := {
  STATE : State;
  state_file : option StateJson;
  job_queue : list Job;
  next_job_id : nat;
  api_log : list ApiCall;
  console : list string;
}.

(** The collaborators: the answers of the platform to each request and the
    clock.  [import_time] is what the clock read when the module was loaded,
    the default of [MarketQuote.ts]; within one call of a coroutine the clock
    reads [time_now]. *)
Record Platform : Type := {
  get_available_gifts : exn + list ApiGift;
  get_business_account_gifts : string → option string → exn + GiftsPage;
  send_message : option Z → string → exn + unit;
  reply_text : string → exn + unit;
  import_time : Q;
  time_now : Q;
}.

(** An incoming update: the ids of [effective_user] and [effective_chat] and
    the id of [business_connection]. *)
Record Update : Type := {
  effective_user : option Z;
  effective_chat : option Z;
  business_connection : option string;
}.

(** ** Coroutines as state transformers *)

(** How a call ends: with a value, with an exception, or not at all. *)
Inductive outcome (A : Type) : Type :=
| Ok (a : A)
| Raise (e : exn)
| Diverge.
Arguments Ok {A} a.
Arguments Raise {A} e.
Arguments Diverge {A}.

Definition M (A : Type) : Type := World → outcome A * World.

Definition ret {A : Type} (a : A) : M A := λ w, (Ok a, w).

Definition bind {A B : Type} (m : M A) (k : A → M B) : M B :=
  λ w, match m w with
       | (Ok a, w') => k a w'
       | (Raise e, w') => (Raise e, w')
       | (Diverge, w') => (Diverge, w')
       end.

Definition raise {A : Type} (e : exn) : M A := λ w, (Raise e, w).

Definition diverge {A : Type} : M A := λ w, (Diverge, w).

(** [try: m except Exception as e: h e] *)
Definition try_except {A : Type} (m : M A) (h : exn → M A) : M A :=
  λ w, match m w with
       | (Raise e, w') => h e w'
       | r => r
       end.

Definition get_STATE : M State := λ w, (Ok (STATE w), w).

Definition put_STATE (s : State) : M unit :=
  λ w, (Ok tt, {| STATE := s; state_file := state_file w;
                  job_queue := job_queue w; next_job_id := next_job_id w;
                  api_log := api_log w; console := console w |}).

Definition put_state_file (j : StateJson) : M unit :=
  λ w, (Ok tt, {| STATE := STATE w; state_file := Some j;
                  job_queue := job_queue w; next_job_id := next_job_id w;
                  api_log := api_log w; console := console w |}).

Definition get_jobs : M (list Job) := λ w, (Ok (job_queue w), w).

Definition put_jobs (q : list Job) (next : nat) : M unit :=
  λ w, (Ok tt, {| STATE := STATE w; state_file := state_file w;
                  job_queue := q; next_job_id := next;
                  api_log := api_log w; console := console w |}).

(** [print(line)] *)
Definition print (line : string) : M unit :=
  λ w, (Ok tt, {| STATE := STATE w; state_file := state_file w;
                  job_queue := job_queue w; next_job_id := next_job_id w;
                  api_log := api_log w; console := console w ++ [line] |}).

(** Send request [c] to the platform, which answers [r]. *)
Definition request {A : Type} (c : ApiCall) (r : exn + A) : M A :=
  λ w, let w' := {| STATE := STATE w; state_file := state_file w;
                    job_queue := job_queue w; next_job_id := next_job_id w;
                    api_log := api_log w ++ [c]; console := console w |} in
       match r with
       | inr a => (Ok a, w')
       | inl e => (Raise e, w')
       end.

Declare Scope py_scope.
Delimit Scope py_scope with py.
Notation "'do' x <- m ; k" := (bind m (λ x, k))
  (at level 10, x name, m at level 100, k at level 200) : py_scope.
Open Scope py_scope.

(** [for x in l: body x] *)
Fixpoint for_each {A : Type} (l : list A) (body : A → M unit) : M unit :=
  match l with
  | [] => ret tt
  | x :: l' => do _ <- body x; for_each l' body
  end.

(** ** The program *)

Section Bot.

Variable B : Builtins.
Variable P : Platform.

(** [int(os.environ.get("POLL_INTERVAL_SEC", "1800"))] *)
Variable DEFAULT_POLL_INTERVAL_SEC : Z.

(** *** The file store *)

(** [State()] with the defaults of the class. *)
Definition State_default : State :=
  {| connections := ∅; chats := ∅; settings := ∅;
     last_catalog := ∅; last_portfolio := ∅ |}.

(** The settings of one user as JSON: a float that is not finite is
    written as [null], as [None] is. *)
Definition dump_settings (x : Settings) : SettingsJson :=
  {| j_min_profit_stars := min_profit_stars x;
     j_min_profit_pct := match min_profit_pct x with
                         | Some (FFinite q) => Some q
                         | Some (FInf _) | Some FNan | None => None
                         end |}.

(** The settings of one user read from JSON. *)
Definition load_settings (j : SettingsJson) : Settings :=
  {| min_profit_stars := j_min_profit_stars j;
     min_profit_pct := FFinite <$> j_min_profit_pct j |}.

(** [self.model_dump_json(indent=2)]: every field is written as it is held,
    a [None] as [null]. *)
Definition model_dump_json (s : State) : StateJson :=
  {| j_connections := connections s; j_chats := chats s;
     j_settings := dump_settings <$> settings s;
     j_last_catalog := last_catalog s;
     j_last_portfolio := last_portfolio s |}.

(** The constructor [cls] applied to the parsed document: the values of
    ["chats"] are validated against [int], which [null] is not; what is
    annotated [Any] is taken as it is read. *)
Definition model_validate (data : StateJson) : exn + State :=
  if bool_decide (map_Forall (λ _ v, is_Some v) (j_chats data)) then
    inr {| connections := j_connections data; chats := j_chats data;
           settings := load_settings <$> j_settings data;
           last_catalog := j_last_catalog data;
           last_portfolio := j_last_portfolio data |}
  else inl (ValidationError "chats: Input should be a valid integer").

(** [State.load] *)
Definition State_load : M State :=
  λ w, match state_file w with
       | Some data =>
           match model_validate data with
           | inr s => (Ok s, w)
           | inl e => (Raise e, w)
           end
       | None => (Ok State_default, w)
       end.

(** [STATE.save()]: the temporary file replaces the state file. *)
Definition State_save : M unit :=
  do s <- get_STATE;
  put_state_file (model_dump_json s).

Definition set_connections (v : gmap string string) (s : State) : State :=
  {| connections := v; chats := chats s; settings := settings s;
     last_catalog := last_catalog s; last_portfolio := last_portfolio s |}.

Definition set_chats (v : gmap string (option Z)) (s : State) : State :=
  {| connections := connections s; chats := v; settings := settings s;
     last_catalog := last_catalog s; last_portfolio := last_portfolio s |}.

Definition set_settings (v : gmap string Settings) (s : State) : State :=
  {| connections := connections s; chats := chats s; settings := v;
     last_catalog := last_catalog s; last_portfolio := last_portfolio s |}.

Definition set_last_catalog (v : gmap string CatalogEntry) (s : State) : State :=
  {| connections := connections s; chats := chats s; settings := settings s;
     last_catalog := v; last_portfolio := last_portfolio s |}.

Definition set_last_portfolio (v : gmap string Portfolio) (s : State) : State :=
  {| connections := connections s; chats := chats s; settings := settings s;
     last_catalog := last_catalog s; last_portfolio := v |}.

(** *** Formatting *)

Definition fmt_stars (val : option Z) : string :=
  match val with
  | Some v => pretty v +:+ " ⭐"
  | None => "—"
  end.

(** [emoji or dflt] *)
Definition emoji_or (emoji : option string) (dflt : string) : string :=
  match emoji with
  | Some e => if bool_decide (e = "") then dflt else e
  | None => dflt
  end.

(** *** Catalog and portfolio *)

Definition catalog_entry (g : ApiGift) : CatalogEntry :=
  {| c_id := g_id g;
     c_title := emoji_or (g_emoji g) "Gift";
     star_count := g_star_count g;
     c_total_count := g_total_count g;
     remaining_count := g_remaining_count g;
     upgrade_star_count := g_upgrade_star_count g |}.

(** [{g["id"]: g for g in catalog}]: a later entry replaces an earlier one
    with the same id. *)
Definition dict_by_id (catalog : list CatalogEntry) : gmap string CatalogEntry :=
  foldl (λ d g, <[c_id g := g]> d) ∅ catalog.

Definition build_catalog : M (list CatalogEntry) :=
  do gifts_obj <- request GetAvailableGifts (get_available_gifts P);
  let catalog := catalog_entry <$> gifts_obj in
  do s <- get_STATE;
  do _ <- put_STATE (set_last_catalog (dict_by_id catalog) s);
  do _ <- State_save;
  ret catalog.

(** The dictionary [fetch_portfolio] builds for one owned gift. *)
Definition portfolio_item (og : OwnedGift) : GiftRecord :=
  match og with
  | OwnedGiftRegular gift_id emoji convert upgradable prepaid txt =>
      Regular {| r_gift_id := gift_id;
                 r_gift_title := emoji_or emoji "Gift";
                 convert_star_count := convert;
                 can_be_upgraded := upgradable;
                 prepaid_upgrade_star_count := prepaid;
                 text := txt |}
  | OwnedGiftUnique gift_id emoji rk transferable transfer next_transfer =>
      Unique {| u_gift_id := gift_id;
                u_gift_title := emoji_or emoji "Unique";
                rank := rk;
                can_be_transferred := transferable;
                transfer_star_count := transfer;
                next_transfer_date := next_transfer |}
  end.

(** The [while True] loop of [fetch_portfolio]; each turn spends one unit of
    [fuel], and the loop with no fuel left has not ended. *)
Fixpoint fetch_pages (fuel : nat) (bc : string) (offset : option string)
    (all_gifts : list GiftRecord) : M (Z * list GiftRecord) :=
  match fuel with
  | O => diverge
  | S fuel' =>
      do resp <- request (GetBusinessAccountGifts bc offset)
                   (get_business_account_gifts P bc offset);
      let total := p_total_count resp in
      let all_gifts := all_gifts ++ (portfolio_item <$> p_gifts resp) in
      if truthy_str (next_offset resp)
      then fetch_pages fuel' bc (next_offset resp) all_gifts
      else ret (total, all_gifts)
  end.

Definition fetch_portfolio (fuel : nat) (user_id : Z) : M Portfolio :=
  do s <- get_STATE;
  let bc := connections s !! pretty user_id in
  if truthy_str bc then
    do r <- fetch_pages fuel (default "" bc) None [];
    let portfolio := {| total_count := r.1; gifts := r.2;
                        ts := Some (time_now P) |} in
    do s <- get_STATE;
    do _ <- put_STATE
              (set_last_portfolio
                 (<[pretty user_id := portfolio]> (last_portfolio s)) s);
    do _ <- State_save;
    ret portfolio
  else ret {| total_count := 0; gifts := []; ts := None |}.

(** [fetch_market_quotes_example]: no price for any gift.  [fetched_at] is
    the default of [MarketQuote.ts], the time the class was defined.  It is
    the one quote source [analyze_portfolio] calls. *)
Definition fetch_market_quotes_example (fetched_at : Q) (gift_ids : list string)
  : gmap string MarketQuote :=
  list_to_map
    ((λ gid, (gid, {| q_gift_id := gid; floor_stars := None;
                      last_trade_stars := None; q_ts := fetched_at |}))
       <$> gift_ids).

(** *** Analysis of a portfolio *)

(** [[g for g in gifts if g.get("class") == "regular"]] *)
Definition regulars_of (gs : list GiftRecord) : list RegularGift :=
  omap (λ g, match g with Regular r => Some r | Unique _ => None end) gs.

(** [[g for g in gifts if g.get("class") == "unique"]] *)
Definition uniques_of (gs : list GiftRecord) : list UniqueGift :=
  omap (λ g, match g with Unique u => Some u | Regular _ => None end) gs.

(** The ids of the unique items that have one. *)
Definition unique_ids_of (gs : list GiftRecord) : list string :=
  omap (λ u, if truthy_str (u_gift_id u) then u_gift_id u else None)
       (uniques_of gs).

(** [isinstance(val, int) and val >= bound] *)
Definition int_at_least (val : option Z) (bound : Z) : bool :=
  match val with
  | Some v => bool_decide (bound ≤ v)
  | None => false
  end.

(** [isinstance(val, int)] *)
Definition is_int (val : option Z) : bool :=
  match val with
  | Some _ => true
  | None => false
  end.

Definition convert_suggestion (r : RegularGift) (conv : option Z) : Suggestion :=
  {| title := "Конвертировать в Stars: " +:+ r_gift_title r;
     details := "Можно получить " +:+ fmt_stars conv
                +:+ " за обычный подарок." |}.

Definition upgrade_suggestion (r : RegularGift) (up : option Z) : Suggestion :=
  {| title := "Подумать об апгрейде: " +:+ r_gift_title r;
     details := "Апгрейд до уникального стоит " +:+ fmt_stars up
                +:+ ". Оцените рынок перед апгрейдом." |}.

Definition ready_details : string := "Можно переводить сейчас.".

Definition floor_note (floor : option Z) : string :=
  " Ориентир по флоору: ~" +:+ fmt_stars floor +:+ ".".

Definition ready_suggestion (u : UniqueGift) (details : string) : Suggestion :=
  {| title := "Уникальный готов к продаже: " +:+ u_gift_title u;
     details := details |}.

Definition placeholder : Suggestion :=
  {| title := "Пока без явных действий";
     details := "Ждём изменений в каталоге/портфеле." |}.

(** One turn of the loop over the regular items. *)
Definition regular_step (catalog : gmap string CatalogEntry)
    (min_profit_stars : Z) (suggestions : list Suggestion) (r : RegularGift)
  : list Suggestion :=
  let conv := convert_star_count r in
  if int_at_least conv min_profit_stars then
    suggestions ++ [convert_suggestion r conv]
  else if truthy_bool (can_be_upgraded r) then
    let g := r_gift_id r ≫= (catalog !!.) in
    let up := g ≫= upgrade_star_count in
    if is_int up then suggestions ++ [upgrade_suggestion r up]
    else suggestions
  else suggestions.

(** [can_transfer] of one unique item. *)
Definition can_transfer (u : UniqueGift) : bool :=
  let next_transfer_iso := next_transfer_date u in
  if truthy_str next_transfer_iso then
    match fromisoformat_timestamp B (default "" next_transfer_iso) with
    | Some t => Qle_bool t (time_now P)
    | None => true
    end
  else true.

(** One turn of the loop over the unique items. *)
Definition unique_step (quotes : gmap string MarketQuote)
    (suggestions : list Suggestion) (u : UniqueGift) : list Suggestion :=
  if can_transfer u then
    let q := if truthy_str (u_gift_id u)
             then u_gift_id u ≫= (quotes !!.) else None in
    let floor := q ≫= floor_stars in
    let details := ready_details in
    let details := if truthy_int floor
                   then details +:+ floor_note floor
                   else details in
    suggestions ++ [ready_suggestion u details]
  else suggestions.

(** The suggestions of [analyze_portfolio] from the catalog, the items of
    the portfolio, the quotes and the threshold it has gathered. *)
Definition suggestions_for (catalog : gmap string CatalogEntry)
    (gs : list GiftRecord) (quotes : gmap string MarketQuote)
    (min_profit_stars : Z) : list Suggestion :=
  let suggestions := [] in
  let suggestions :=
    foldl (regular_step catalog min_profit_stars) suggestions (regulars_of gs) in
  let suggestions := foldl (unique_step quotes) suggestions (uniques_of gs) in
  match suggestions with
  | [] => suggestions ++ [placeholder]
  | _ :: _ => suggestions
  end.

(** [analyze_portfolio].  A cached catalog counts when it is not empty and
    a cached portfolio when there is one (a portfolio has keys, so it is
    true).  The quotes are those of [fetch_market_quotes_example].  The
    second component of the result stands for the dictionary with the keys
    ["portfolio"] and ["catalog"]; the entries of the catalog are listed in
    the order of their keys, the map keeping no record of the order in which
    the source inserted them. *)
Definition analyze_portfolio (fuel : nat) (user_id : Z)
  : M (list Suggestion * (Portfolio * list CatalogEntry)) :=
  do s <- get_STATE;
  do catalog <-
    (if bool_decide (last_catalog s = ∅)
     then do fetched <- build_catalog; ret (dict_by_id fetched)
     else ret (last_catalog s));
  do s <- get_STATE;
  do portfolio <-
    match last_portfolio s !! pretty user_id with
    | Some cached => ret cached
    | None => fetch_portfolio fuel user_id
    end;
  let unique_ids := unique_ids_of (gifts portfolio) in
  let quotes := fetch_market_quotes_example (import_time P) unique_ids in
  do s <- get_STATE;
  let user_settings :=
    default {| min_profit_stars := 0; min_profit_pct := Some (FFinite 0) |}
            (settings s !! pretty user_id) in
  let suggestions :=
    suggestions_for catalog (gifts portfolio) quotes
                    (min_profit_stars user_settings) in
  ret (suggestions, (portfolio, (map_to_list catalog).*2)).

(** *** Handlers *)

(** [on_business_connection].  Without a chat in the update the handler
    stores [STATE.chats.get(...)], which is [None] for a user with no chat
    yet. *)
Definition on_business_connection (update : Update) : M unit :=
  match business_connection update, effective_user update with
  | Some bc, Some user =>
      do s <- get_STATE;
      do _ <- put_STATE
                (set_connections (<[pretty user := bc]> (connections s)) s);
      do s <- get_STATE;
      let chat := match effective_chat update with
                  | Some c => Some c
                  | None => mjoin (chats s !! pretty user)
                  end in
      do _ <- put_STATE (set_chats (<[pretty user := chat]> (chats s)) s);
      do _ <- State_save;
      do s <- get_STATE;
      let body :=
        "Бизнес‑подключение сохранено ✅. Теперь доступна команда /portfolio." in
      request (SendMessage (mjoin (chats s !! pretty user)) body)
              (send_message P (mjoin (chats s !! pretty user)) body)
  | _, _ => ret tt
  end.

(** [context.job_queue.get_jobs_by_name(name)] *)
Definition get_jobs_by_name (name : string) : M (list Job) :=
  do q <- get_jobs;
  ret (filter (λ j, job_name j = name) q).

(** [j.schedule_removal()]: job [j] leaves the queue. *)
Definition schedule_removal (j : Job) : M unit :=
  λ w, put_jobs (filter (λ j', job_id j' ≠ job_id j) (job_queue w))
                (next_job_id w) w.

(** [context.job_queue.run_repeating(callback=watch_tick, interval, name, data)] *)
Definition run_repeating (interval : Z) (name : string) (user_id : Z) : M unit :=
  λ w, put_jobs (job_queue w ++ [{| job_id := next_job_id w; job_name := name;
                                    job_interval := interval;
                                    job_user_id := user_id |}])
                (S (next_job_id w)) w.

(** [watch_cmd] from the assignment to [STATE.settings] on, once both
    arguments are read. *)
Definition watch_cmd_register (user : Z) (min_stars : Z) (min_pct : pyfloat)
  : M unit :=
  do s <- get_STATE;
  do _ <- put_STATE
            (set_settings
               (<[pretty user := {| min_profit_stars := min_stars;
                                    min_profit_pct := Some min_pct |}]>
                  (settings s)) s);
  do _ <- State_save;
  let name := "watch_" +:+ pretty user in
  do jobs <- get_jobs_by_name name;
  do _ <- for_each jobs schedule_removal;
  do _ <- run_repeating DEFAULT_POLL_INTERVAL_SEC name user;
  let body :=
    "Алерты включены: мин профит " +:+ pretty min_stars +:+ "⭐, мин "
    +:+ str_of_float B min_pct +:+ "%. Буду проверять раз в "
    +:+ pretty (DEFAULT_POLL_INTERVAL_SEC `div` 60) +:+ " мин." in
  request (ReplyText body) (reply_text P body).

(** [int(args[0]) if len(args) >= 1 and args[0].isdigit() else 0], [None]
    when [int] raises. *)
Definition min_stars_arg (args : list string) : option Z :=
  match args !! 0%nat with
  | Some a => if str_isdigit B a then int_of_str B a else Some 0
  | None => Some 0
  end.

(** [float(args[1]) if len(args) >= 2 else 0.0], [None] when [float]
    raises. *)
Definition min_pct_arg (args : list string) : option pyfloat :=
  match args !! 1%nat with
  | Some a => float_of_str B a
  | None => Some (FFinite 0)
  end.

(** [watch_cmd]: both arguments are read before anything is stored. *)
Definition watch_cmd (update : Update) (args : list string) : M unit :=
  match effective_user update with
  | None => ret tt
  | Some user =>
      do min_stars <-
        match min_stars_arg args with
        | Some n => ret n
        | None => raise (ValueError "invalid literal for int()")
        end;
      do min_pct <-
        match min_pct_arg args with
        | Some x => ret x
        | None => raise (ValueError "could not convert string to float")
        end;
      watch_cmd_register user min_stars min_pct
  end.

(** The text of one suggestion in a message. *)
Definition render (s : Suggestion) : string :=
  "• <b>" +:+ title s +:+ "</b>" +:+ nl +:+ details s.

(** The [try] block of [watch_tick]. *)
Definition watch_tick_try (fuel : nat) (user_id : Z) : M unit :=
  do r <- analyze_portfolio fuel user_id;
  let suggestions := r.1 in
  match suggestions with
  | [] => ret tt
  | _ :: _ =>
      do s <- get_STATE;
      let chat_id := mjoin (chats s !! pretty user_id) in
      if truthy_int chat_id then
        let txt := String.concat (nl +:+ nl) (render <$> suggestions) in
        let body := "Обновления по портфелю:" +:+ nl +:+ nl +:+ txt in
        request (SendMessage chat_id body) (send_message P chat_id body)
      else ret tt
  end.

(** [watch_tick]: the [try] block and its [except Exception] handler. *)
Definition watch_tick (fuel : nat) (job : Job) : M unit :=
  let user_id := job_user_id job in
  try_except (watch_tick_try fuel user_id)
    (λ e, print ("[watch_tick] error: " +:+ str_exn e)).

(** *** Notions the properties are stated with *)

(** What the regular loop appends for one item. *)
Definition regular_rule (catalog : gmap string CatalogEntry)
    (min_profit_stars : Z) (r : RegularGift) : list Suggestion :=
  regular_step catalog min_profit_stars [] r.

(** What the unique loop appends for one item. *)
Definition unique_rule (quotes : gmap string MarketQuote) (u : UniqueGift)
  : list Suggestion :=
  unique_step quotes [] u.

(** The suggestions of the items of [gs], in the order of the two loops. *)
Definition fired (catalog : gmap string CatalogEntry)
    (quotes : gmap string MarketQuote) (min_profit_stars : Z)
    (gs : list GiftRecord) : list Suggestion :=
  (regulars_of gs ≫= regular_rule catalog min_profit_stars)
  ++ (uniques_of gs ≫= unique_rule quotes).

(** The threshold [analyze_portfolio] reads for a user. *)
Definition threshold (s : State) (user_id : Z) : Z :=
  min_profit_stars
    (default {| min_profit_stars := 0; min_profit_pct := Some (FFinite 0) |}
             (settings s !! pretty user_id)).

(** The quotes [analyze_portfolio] obtains for a portfolio. *)
Definition quotes_for (portfolio : Portfolio) : gmap string MarketQuote :=
  fetch_market_quotes_example (import_time P)
    (unique_ids_of (gifts portfolio)).

(** The float of the settings, if any, is finite. *)
Definition finite_pct (x : Settings) : Prop :=
  match min_profit_pct x with
  | Some (FInf _) | Some FNan => False
  | Some (FFinite _) | None => True
  end.

(** The timers of a user: the jobs of the queue under the name of the user. *)
Definition timers_of (user_id : Z) (w : World) : list Job :=
  filter (λ j, job_name j = "watch_" +:+ pretty user_id) (job_queue w).

(** The arguments of [/watch] that both conversions accept. *)
Definition args_accepted (args : list string) : Prop :=
  is_Some (min_stars_arg args) ∧ is_Some (min_pct_arg args).

(** The job [watch_cmd] adds for a user in world [w]. *)
Definition armed_job (user_id : Z) (w : World) : Job :=
  {| job_id := next_job_id w; job_name := "watch_" +:+ pretty user_id;
     job_interval := DEFAULT_POLL_INTERVAL_SEC; job_user_id := user_id |}.

(** The world after the handlers [watch_cmd] of a run of updates, whatever
    the outcome of each. *)
Definition after_watch_cmds (cmds : list (Update * list string)) (w : World)
  : World :=
  foldl (λ w c, (watch_cmd c.1 c.2 w).2) w cmds.

End Bot.


(** ** A runtime and a platform for the examples *)

(** The value of a text of ASCII digits, most significant first. *)
Fixpoint digits_value (s : string) (acc : Z) : option Z :=
  match s with
  | "" => Some acc
  | String c s' =>
      let n := Ascii.nat_of_ascii c in
      if ((48 <=? n)%nat && (n <=? 57)%nat)%bool
      then digits_value s' (10 * acc + Z.of_nat (n - 48))
      else None
  end.

Definition ascii_int (s : string) : option Z :=
  match s with
  | "" => None
  | String _ _ => digits_value s 0
  end.

Definition ascii_isdigit (s : string) : bool :=
  bool_decide (is_Some (ascii_int s)).

Definition ascii_float (s : string) : option pyfloat :=
  if bool_decide (s = "nan") then Some FNan
  else if bool_decide (s = "inf") then Some (FInf false)
  else (λ z, FFinite (inject_Z z)) <$> ascii_int s.

Definition ascii_str_of_float (x : pyfloat) : string :=
  match x with
  | FFinite q => pretty (Qnum q `div` Zpos (Qden q)) +:+ ".0"
  | FInf false => "inf"
  | FInf true => "-inf"
  | FNan => "nan"
  end.

Definition example_dates : gmap string Q :=
  {[ "1970-01-01T00:00:00+00:00" := 0%Q;
     "2100-01-01T00:00:00+00:00" := inject_Z 4102444800 ]}.

(** A runtime that agrees with Python on the texts of the examples: texts
    of ASCII digits, ["abc"], ["nan"] and ["inf"], whole-number floats and
    the two dates of [example_dates]. *)
Definition example_runtime : Builtins :=
  {| str_isdigit := ascii_isdigit;
     int_of_str := ascii_int;
     float_of_str := ascii_float;
     str_of_float := ascii_str_of_float;
     fromisoformat_timestamp := λ s, example_dates !! s;
     fromisoformat_timestamp_empty := eq_refl |}.

(** A platform that answers every request but a message to no chat, has an
    empty catalog and no gifts for anyone, and whose clock reads the first
    second of 2024, three hours after the module was loaded. *)
Definition quiet_platform : Platform :=
  {| get_available_gifts := inr [];
     get_business_account_gifts := λ _ _,
       inr {| p_total_count := 0; p_gifts := []; next_offset := None |};
     send_message := λ chat _,
       match chat with
       | Some _ => inr tt
       | None => inl (TelegramError "Bad Request: chat_id is empty")
       end;
     reply_text := λ _, inr tt;
     import_time := inject_Z 1704056400;
     time_now := inject_Z 1704067200 |}.

(** The world of a fresh process: nothing stored, no state file, no job. *)
Definition fresh_world : World :=
  {| STATE := State_default; state_file := None; job_queue := [];
     next_job_id := 0; api_log := []; console := [] |}.


(** [quiet_platform] with one gift in the catalog. *)
Definition catalog_platform : Platform :=
  {| get_available_gifts :=
       inr [{| g_id := "g1"; g_emoji := Some "🎁"; g_star_count := Some 50;
               g_total_count := None; g_remaining_count := None;
               g_upgrade_star_count := Some 25 |}];
     get_business_account_gifts := get_business_account_gifts quiet_platform;
     send_message := send_message quiet_platform;
     reply_text := reply_text quiet_platform;
     import_time := import_time quiet_platform;
     time_now := time_now quiet_platform |}.

(** Quotes that give every gift the same floor price, as a quote source put
    in the place of [fetch_market_quotes_example] could return them. *)
Definition flat_quotes (floor : option Z) (gift_ids : list string)
  : gmap string MarketQuote :=
  list_to_map
    ((λ gid, (gid, {| q_gift_id := gid; floor_stars := floor;
                      last_trade_stars := None; q_ts := 0%Q |}))
       <$> gift_ids).

(** A platform that serves the gifts of a connection in two pages: a
    regular gift on the first, a unique one on the second. *)
Definition paged_platform : Platform :=
  {| get_available_gifts := get_available_gifts catalog_platform;
     get_business_account_gifts := λ _ offset,
       match offset with
       | None =>
           inr {| p_total_count := 2;
                  p_gifts := [OwnedGiftRegular (Some "g1") (Some "🎁")
                                (Some 150) (Some true) None None];
                  next_offset := Some "1" |}
       | Some _ =>
           inr {| p_total_count := 2;
                  p_gifts := [OwnedGiftUnique None None None (Some true)
                                None None];
                  next_offset := None |}
       end;
     send_message := send_message quiet_platform;
     reply_text := reply_text quiet_platform;
     import_time := import_time quiet_platform;
     time_now := time_now quiet_platform |}.

(** A platform whose every page announces a next one. *)
Definition endless_platform : Platform :=
  {| get_available_gifts := get_available_gifts catalog_platform;
     get_business_account_gifts := λ _ _,
       inr {| p_total_count := 1; p_gifts := []; next_offset := Some "1" |};
     send_message := send_message quiet_platform;
     reply_text := reply_text quiet_platform;
     import_time := import_time quiet_platform;
     time_now := time_now quiet_platform |}.

(** The world of a fresh process after the business connection of user 7
    made from chat 42. *)
Definition connected_world : World :=
  {| STATE := {| connections := {[ "7" := "bc7" ]};
                 chats := {[ "7" := Some 42 ]};
                 settings := ∅; last_catalog := ∅; last_portfolio := ∅ |};
     state_file := None; job_queue := []; next_job_id := 0;
     api_log := []; console := [] |}.

(** A platform whose every request fails. *)
Definition failing_platform : Platform :=
  {| get_available_gifts := inl (TelegramError "Timed out");
     get_business_account_gifts := λ _ _, inl (TelegramError "Timed out");
     send_message := λ _ _, inl (TelegramError "Timed out");
     reply_text := λ _, inl (TelegramError "Timed out");
     import_time := inject_Z 1704056400;
     time_now := inject_Z 1704067200 |}.

(** The items of the example portfolio: a regular gift worth 150 stars, one
    worth 50 that can be upgraded, one that can be neither converted nor
    upgraded, a unique gift free to transfer and one locked until 2100. *)
Definition r_150 : RegularGift :=
  {| r_gift_id := Some "g1"; r_gift_title := "🎁";
     convert_star_count := Some 150; can_be_upgraded := Some true;
     prepaid_upgrade_star_count := None; text := None |}.

Definition r_50 : RegularGift :=
  {| r_gift_id := Some "g1"; r_gift_title := "🎁";
     convert_star_count := Some 50; can_be_upgraded := Some true;
     prepaid_upgrade_star_count := None; text := None |}.

Definition r_plain : RegularGift :=
  {| r_gift_id := Some "g2"; r_gift_title := "Gift";
     convert_star_count := None; can_be_upgraded := None;
     prepaid_upgrade_star_count := None; text := None |}.

Definition u_free : UniqueGift :=
  {| u_gift_id := Some "u1"; u_gift_title := "Unique"; rank := None;
     can_be_transferred := Some true; transfer_star_count := None;
     next_transfer_date := None |}.

Definition u_locked : UniqueGift :=
  {| u_gift_id := Some "u2"; u_gift_title := "Unique"; rank := None;
     can_be_transferred := None; transfer_star_count := Some 25;
     next_transfer_date := Some "2100-01-01T00:00:00+00:00" |}.

Definition example_entry : CatalogEntry :=
  {| c_id := "g1"; c_title := "🎁"; star_count := Some 50;
     c_total_count := None; remaining_count := None;
     upgrade_star_count := Some 25 |}.

Definition example_portfolio : Portfolio :=
  {| total_count := 5;
     gifts := [Regular r_150; Regular r_50; Regular r_plain;
               Unique u_free; Unique u_locked];
     ts := Some (inject_Z 1704060000) |}.

(** A portfolio with the locked gift alone. *)
Definition locked_portfolio : Portfolio :=
  {| total_count := 1; gifts := [Unique u_locked];
     ts := Some (inject_Z 1704060000) |}.

(** The state of user 7 who has sent [/watch 100 5]; both caches filled. *)
Definition example_state (portfolio : Portfolio) : State :=
  {| connections := {[ "7" := "bc7" ]};
     chats := {[ "7" := Some 42 ]};
     settings := {[ "7" := {| min_profit_stars := 100;
                              min_profit_pct := Some (FFinite (inject_Z 5)) |} ]};
     last_catalog := {[ "g1" := example_entry ]};
     last_portfolio := {[ "7" := portfolio ]} |}.

Definition example_world (portfolio : Portfolio) : World :=
  {| STATE := example_state portfolio;
     state_file := Some (model_dump_json (example_state portfolio));
     job_queue := []; next_job_id := 0; api_log := []; console := [] |}.


(** [example_world] with three jobs left in the queue: two under the name
    of user 7 and one of user 8. *)
Definition crowded_world : World :=
  {| STATE := example_state example_portfolio;
     state_file := Some (model_dump_json (example_state example_portfolio));
     job_queue :=
       [{| job_id := 0; job_name := "watch_7"; job_interval := 1800;
           job_user_id := 7 |};
        {| job_id := 1; job_name := "watch_8"; job_interval := 1800;
           job_user_id := 8 |};
        {| job_id := 2; job_name := "watch_7"; job_interval := 1800;
           job_user_id := 7 |}];
     next_job_id := 3; api_log := []; console := [] |}.

(** The update of a business connection of user 7, which has no chat. *)
Definition connect_update : Update :=
  {| effective_user := Some 7; effective_chat := None;
     business_connection := Some "bc7" |}.

(** A command sent by user 7 from chat 42. *)
Definition command_update : Update :=
  {| effective_user := Some 7; effective_chat := Some 42;
     business_connection := None |}.

(** ** The other handlers *)

(** The update of a command: it carries a message, and a message has a
    chat; [cu_user] is the id of [effective_user], [cu_chat] the id of
    [effective_chat]. *)
Record CommandUpdate : Type := {
  cu_user : option Z;
  cu_chat : Z;
}.

Section Commands.

Variable B : Builtins.
Variable P : Platform.

(** The text of [start]. *)
Definition start_text : string :=
    "Привет! Я бот‑аналитик подарков в Telegram."
    +:+ nl
    +:+ nl
    +:+ "Что я умею:"
    +:+ nl
    +:+ "• /catalog — показать доступные подарки и цены в Stars"
    +:+ nl
    +:+ "• /connect_info — как подключить меня к Business‑аккаунту"
    +:+ nl
    +:+ "• /portfolio — показать ваши подарки (только для Business)"
    +:+ nl
    +:+ "• /analyze — рекомендации (конвертация/апгрейд/трансфер)"
    +:+ nl
    +:+ "• /watch <минStars> <мин%> — алерты по изменениям (напр. /watch 100 5)"
    +:+ nl
    +:+ "• /help — справка"
    +:+ nl.

(** [start], which [help_cmd] calls: the chat of the user is stored and
    saved, then the text is sent. *)
Definition start (update : CommandUpdate) : M unit :=
  do _ <-
    match cu_user update with
    | Some user =>
        do s <- get_STATE;
        do _ <- put_STATE
                  (set_chats (<[pretty user := Some (cu_chat update)]> (chats s))
                     s);
        State_save
    | None => ret tt
    end;
  request (ReplyText start_text) (reply_text P start_text).

Definition help_cmd (update : CommandUpdate) : M unit := start update.

(** [portfolio_cmd]: the portfolio is fetched, cached or not. *)
Definition portfolio_cmd (fuel : nat) (update : Update) : M unit :=
  match effective_user update with
  | None => ret tt
  | Some user =>
      do pf <- fetch_portfolio P fuel user;
      let total := total_count pf in
      let regs := length (regulars_of (gifts pf)) in
      let unqs := length (uniques_of (gifts pf)) in
      let body :=
        "У вас " +:+ pretty total +:+ " подарков: " +:+ pretty regs
        +:+ " обычных и " +:+ pretty unqs +:+ " уникальных." +:+ nl
        +:+ "Используйте /analyze для рекомендаций." in
      request (ReplyText body) (reply_text P body)
  end.

(** [analyze_cmd] *)
Definition analyze_cmd (fuel : nat) (update : Update) : M unit :=
  match effective_user update with
  | None => ret tt
  | Some user =>
      do r <- analyze_portfolio B P fuel user;
      let suggestions := r.1 in
      let txt := String.concat (nl +:+ nl) (render <$> suggestions) in
      request (ReplyText txt) (reply_text P txt)
  end.

(** *** Notions the further properties are stated with *)

(** The requests that read from the platform. *)
Definition is_fetch (c : ApiCall) : Prop :=
  match c with
  | GetAvailableGifts | GetBusinessAccountGifts _ _ => True
  | SendMessage _ _ | ReplyText _ => False
  end.

(** The value under ["gift_title"]. *)
Definition gift_title (g : GiftRecord) : string :=
  match g with
  | Regular r => r_gift_title r
  | Unique u => u_gift_title u
  end.

(** The jobs of the queue are distinct objects, all made before the next
    one. *)
Definition jobs_wf (w : World) : Prop :=
  NoDup (job_id <$> job_queue w)
  ∧ Forall (λ j, (job_id j < next_job_id w)%nat) (job_queue w).

End Commands.

(** A command sent by user 7 from chat 42, as [start] sees it. *)
Definition start_update : CommandUpdate :=
  {| cu_user := Some 7; cu_chat := 42 |}.

(** * Properties *)

(** Unfold the primitives of the monad in the goal. *)
Ltac run :=
  unfold bind, ret, raise, diverge, get_STATE, put_STATE, put_state_file,
    get_jobs, put_jobs, print, request; simpl.

(** ** Texts *)

Lemma prefix_app_same (sub rest : string) : String.prefix sub (sub +:+ rest) = true.
Proof.
  induction sub as [|c sub IH]; simpl.
  - by destruct rest.
  - destruct (Ascii.ascii_dec c c) as [_|Hne]; [exact IH | by destruct Hne].
Qed.



Lemma append_assoc (a b c : string) : (a +:+ b) +:+ c = a +:+ (b +:+ c).
Proof.
  induction a as [|x a IH]; [done|].
  change (String x ((a +:+ b) +:+ c) = String x (a +:+ (b +:+ c))).
  by rewrite IH.
Qed.


(** ** The two loops *)

Section Rules.

Variable B : Builtins.
Variable P : Platform.

Implicit Types (catalog : gmap string CatalogEntry).
Implicit Types (quotes : gmap string MarketQuote).
Implicit Types (gs pre post : list GiftRecord).

Lemma regular_step_app catalog m acc r :
  regular_step catalog m acc r = acc ++ regular_rule catalog m r.
Proof.
  unfold regular_rule, regular_step.
  repeat case_match; simpl; try done; by rewrite app_nil_r.
Qed.

Lemma unique_step_app quotes acc u :
  unique_step B P quotes acc u = acc ++ unique_rule B P quotes u.
Proof.
  unfold unique_rule, unique_step.
  repeat case_match; simpl; try done; by rewrite app_nil_r.
Qed.

Lemma regular_loop catalog m rs acc :
  foldl (regular_step catalog m) acc rs = acc ++ (rs ≫= regular_rule catalog m).
Proof.
  revert acc. induction rs as [|r rs IH]; intros acc; simpl.
  - by rewrite app_nil_r.
  - rewrite IH, regular_step_app, <- app_assoc. done.
Qed.

Lemma unique_loop quotes us acc :
  foldl (unique_step B P quotes) acc us = acc ++ (us ≫= unique_rule B P quotes).
Proof.
  revert acc. induction us as [|u us IH]; intros acc; simpl.
  - by rewrite app_nil_r.
  - rewrite IH, unique_step_app, <- app_assoc. done.
Qed.

(** The result of the analysis is the list of the suggestions that fired, or
    the placeholder alone when none did. *)
Lemma suggestions_for_fired catalog gs quotes m :
  suggestions_for B P catalog gs quotes m =
    match fired B P catalog quotes m gs with
    | [] => [placeholder]
    | _ :: _ => fired B P catalog quotes m gs
    end.
Proof.
  unfold suggestions_for, fired.
  rewrite unique_loop, regular_loop. simpl.
  by destruct (_ ++ _).
Qed.

Lemma regulars_of_app gs1 gs2 :
  regulars_of (gs1 ++ gs2) = regulars_of gs1 ++ regulars_of gs2.
Proof. apply omap_app. Qed.

Lemma uniques_of_app gs1 gs2 :
  uniques_of (gs1 ++ gs2) = uniques_of gs1 ++ uniques_of gs2.
Proof. apply omap_app. Qed.


(** A unique item adds its own suggestions at its place among those of the
    unique items. *)
Lemma fired_unique catalog quotes m pre u post :
  fired B P catalog quotes m (pre ++ Unique u :: post) =
    (regulars_of (pre ++ post) ≫= regular_rule catalog m)
    ++ (uniques_of pre ≫= unique_rule B P quotes)
    ++ unique_rule B P quotes u
    ++ (uniques_of post ≫= unique_rule B P quotes).
Proof.
  unfold fired.
  rewrite !regulars_of_app, uniques_of_app. simpl.
  rewrite !bind_app. simpl. rewrite <- !app_assoc. done.
Qed.


Lemma fired_unique_silent catalog quotes m pre u post :
  unique_rule B P quotes u = [] →
  fired B P catalog quotes m (pre ++ Unique u :: post) =
    fired B P catalog quotes m (pre ++ post).
Proof.
  intros Hu. rewrite fired_unique, Hu. unfold fired.
  rewrite uniques_of_app, bind_app. done.
Qed.

End Rules.

(** ** The coroutines *)

Section Run.

Variable B : Builtins.
Variable P : Platform.

Implicit Types (w : World) (s : State).

(** The pagination loop only sends requests. *)
Lemma fetch_pages_frame fuel bc offset acc w :
  STATE (fetch_pages P fuel bc offset acc w).2 = STATE w
  ∧ state_file (fetch_pages P fuel bc offset acc w).2 = state_file w
  ∧ job_queue (fetch_pages P fuel bc offset acc w).2 = job_queue w
  ∧ console (fetch_pages P fuel bc offset acc w).2 = console w.
Proof.
  revert offset acc w.
  induction fuel as [|fuel IH]; intros offset acc w; simpl; [done|].
  run. destruct (get_business_account_gifts P bc offset) as [e|resp]; [done|].
  destruct (truthy_str (next_offset resp)); [|done].
  match goal with |- context [fetch_pages P fuel bc ?o ?a ?w1] =>
    destruct (IH o a w1) as (-> & -> & -> & ->) end.
  done.
Qed.

(** A page loop that has ended has ended the same way with more fuel. *)
Lemma fetch_pages_more_fuel fuel fuel' bc offset acc w :
  (fuel ≤ fuel')%nat →
  (fetch_pages P fuel bc offset acc w).1 ≠ Diverge →
  fetch_pages P fuel' bc offset acc w = fetch_pages P fuel bc offset acc w.
Proof.
  revert fuel' offset acc w.
  induction fuel as [|fuel IH]; intros fuel' offset acc w Hle Hend; simpl in *;
    [done|].
  destruct fuel' as [|fuel']; [lia|]. simpl.
  revert Hend. run.
  destruct (get_business_account_gifts P bc offset) as [e|resp]; [done|].
  destruct (truthy_str (next_offset resp)); [|done].
  intros Hend. apply IH; [lia|done].
Qed.

(** What [fetch_portfolio] leaves of the state: everything but the cached
    portfolios. *)
Lemma fetch_portfolio_frame fuel user_id w :
  connections (STATE (fetch_portfolio P fuel user_id w).2) = connections (STATE w)
  ∧ chats (STATE (fetch_portfolio P fuel user_id w).2) = chats (STATE w)
  ∧ settings (STATE (fetch_portfolio P fuel user_id w).2) = settings (STATE w)
  ∧ last_catalog (STATE (fetch_portfolio P fuel user_id w).2)
    = last_catalog (STATE w)
  ∧ job_queue (fetch_portfolio P fuel user_id w).2 = job_queue w
  ∧ console (fetch_portfolio P fuel user_id w).2 = console w.
Proof.
  unfold fetch_portfolio. run.
  destruct (truthy_str (connections (STATE w) !! pretty user_id)); [|done].
  pose proof (fetch_pages_frame fuel
                (default "" (connections (STATE w) !! pretty user_id))
                None [] w) as (HS & _ & HJ & HC).
  destruct (fetch_pages P fuel _ None [] w) as [[r|e|] w1]; simpl in *;
    unfold State_save; run; rewrite ?HS, ?HJ, ?HC; done.
Qed.

(** A fetch that has ended has ended the same way with more fuel. *)
Lemma fetch_portfolio_more_fuel fuel fuel' user_id w :
  (fuel ≤ fuel')%nat →
  (fetch_portfolio P fuel user_id w).1 ≠ Diverge →
  fetch_portfolio P fuel' user_id w = fetch_portfolio P fuel user_id w.
Proof.
  intros Hle. unfold fetch_portfolio. run.
  destruct (truthy_str (connections (STATE w) !! pretty user_id)); [|done].
  intros Hend.
  rewrite (fetch_pages_more_fuel fuel fuel' _ None [] w Hle); [done|].
  by destruct (fetch_pages P fuel _ None [] w) as [[r|e|] w1].
Qed.

(** [build_catalog], request by request. *)
Lemma build_catalog_run w :
  build_catalog P w =
    let w1 := {| STATE := STATE w; state_file := state_file w;
                 job_queue := job_queue w; next_job_id := next_job_id w;
                 api_log := api_log w ++ [GetAvailableGifts];
                 console := console w |} in
    match get_available_gifts P with
    | inl e => (Raise e, w1)
    | inr gifts_obj =>
        let catalog := catalog_entry <$> gifts_obj in
        let s := set_last_catalog (dict_by_id catalog) (STATE w) in
        (Ok catalog,
         {| STATE := s; state_file := Some (model_dump_json s);
            job_queue := job_queue w; next_job_id := next_job_id w;
            api_log := api_log w ++ [GetAvailableGifts];
            console := console w |})
    end.
Proof.
  unfold build_catalog, State_save. run.
  by destruct (get_available_gifts P).
Qed.

(** The suggestions [analyze_portfolio] returns are those of the rules for
    the portfolio it returns, the catalog it leaves in [STATE], the quotes of
    the source and the threshold of the user. *)
Lemma analyze_portfolio_Ok fuel user_id w res w' :
  analyze_portfolio B P fuel user_id w = (Ok res, w') →
  res.1 = suggestions_for B P (last_catalog (STATE w')) (gifts res.2.1)
            (quotes_for P res.2.1) (threshold (STATE w') user_id)
  ∧ settings (STATE w') = settings (STATE w)
  ∧ chats (STATE w') = chats (STATE w)
  ∧ job_queue w' = job_queue w.
Proof.
  unfold analyze_portfolio.
  unfold bind at 1. unfold get_STATE at 1.
  unfold bind at 1.
  destruct (bool_decide (last_catalog (STATE w) = ∅)) eqn:Hcat.
  - unfold bind at 1. rewrite build_catalog_run. simpl.
    destruct (get_available_gifts P) as [e|gifts_obj]; [done|].
    unfold ret at 1. unfold bind at 1. unfold get_STATE at 1.
    unfold bind at 1. simpl.
    destruct (last_portfolio (STATE w) !! pretty user_id) as [cached|] eqn:Hpf.
    + run. intros [= <- <-]. simpl. done.
    + match goal with |- context [fetch_portfolio P fuel user_id ?w1] =>
        pose proof (fetch_portfolio_frame fuel user_id w1)
          as (_ & HC & HS & HL & HJ & _);
        destruct (fetch_portfolio P fuel user_id w1) as [[pf|e|] w2]
      end; [|done|done].
      run. intros [= <- <-]. simpl in *. unfold threshold, quotes_for.
      rewrite HL, HS, HC, HJ. done.
  - unfold ret at 1. unfold bind at 1. unfold get_STATE at 1.
    unfold bind at 1.
    destruct (last_portfolio (STATE w) !! pretty user_id) as [cached|] eqn:Hpf.
    + run. intros [= <- <-]. simpl. done.
    + pose proof (fetch_portfolio_frame fuel user_id w)
        as (_ & HC & HS & HL & HJ & _).
      destruct (fetch_portfolio P fuel user_id w) as [[pf|e|] w2];
        [|done|done].
      run. intros [= <- <-]. simpl in *. unfold threshold, quotes_for.
      rewrite HL, HS, HC, HJ. done.
Qed.

(** An analysis that has ended has ended the same way with more fuel. *)
Lemma analyze_portfolio_more_fuel fuel fuel' user_id w :
  (fuel ≤ fuel')%nat →
  (analyze_portfolio B P fuel user_id w).1 ≠ Diverge →
  analyze_portfolio B P fuel' user_id w = analyze_portfolio B P fuel user_id w.
Proof.
  intros Hle. unfold analyze_portfolio. run.
  destruct (bool_decide (last_catalog (STATE w) = ∅)).
  - rewrite build_catalog_run. simpl.
    destruct (get_available_gifts P) as [e|gifts_obj]; [done|]. simpl.
    destruct (last_portfolio (STATE w) !! pretty user_id) as [cached|];
      [done|].
    match goal with |- context [fetch_portfolio P fuel user_id ?w1] =>
      intros Hend;
      rewrite (fetch_portfolio_more_fuel fuel fuel' user_id w1 Hle); [done|];
      by destruct (fetch_portfolio P fuel user_id w1) as [[pf|e|] w2]
    end.
  - destruct (last_portfolio (STATE w) !! pretty user_id) as [cached|];
      [done|].
    intros Hend.
    rewrite (fetch_portfolio_more_fuel fuel fuel' user_id w Hle); [done|].
    by destruct (fetch_portfolio P fuel user_id w) as [[pf|e|] w2].
Qed.

(** An exception of the page loop is one of the platform. *)
Lemma fetch_pages_Raise fuel bc offset acc w e :
  (fetch_pages P fuel bc offset acc w).1 = Raise e →
  ∃ offset', get_business_account_gifts P bc offset' = inl e.
Proof.
  revert offset acc w.
  induction fuel as [|fuel IH]; intros offset acc w; simpl; [done|].
  run. destruct (get_business_account_gifts P bc offset) as [e'|resp] eqn:Hp.
  - intros [= <-]. by exists offset.
  - destruct (truthy_str (next_offset resp)); [apply IH|done].
Qed.

(** The analysis raises nothing of its own: an exception of
    [analyze_portfolio] is the answer of the platform to one of the two
    kinds of request. *)
Lemma analyze_portfolio_Raise fuel user_id w e :
  (analyze_portfolio B P fuel user_id w).1 = Raise e →
  get_available_gifts P = inl e
  ∨ ∃ bc offset, get_business_account_gifts P bc offset = inl e.
Proof.
  assert (Hfetch : ∀ w0, (fetch_portfolio P fuel user_id w0).1 = Raise e →
            ∃ bc offset, get_business_account_gifts P bc offset = inl e).
  { intros w0. unfold fetch_portfolio. run.
    destruct (truthy_str (connections (STATE w0) !! pretty user_id));
      [|done].
    pose proof (fetch_pages_Raise fuel
                  (default "" (connections (STATE w0) !! pretty user_id))
                  None [] w0 e) as Hpages.
    destruct (fetch_pages P fuel _ None [] w0) as [[r|e'|] w1]; simpl in *;
      [done| |done].
    intros [= <-]. destruct (Hpages eq_refl) as [offset Ho]. eauto. }
  unfold analyze_portfolio. run.
  destruct (bool_decide (last_catalog (STATE w) = ∅)).
  - rewrite build_catalog_run. simpl.
    destruct (get_available_gifts P) as [e'|gifts_obj];
      [intros [= <-]; by left|]. simpl.
    destruct (last_portfolio (STATE w) !! pretty user_id) as [cached|];
      [done|].
    match goal with |- context [fetch_portfolio P fuel user_id ?w1] =>
      pose proof (Hfetch w1) as Hf;
      destruct (fetch_portfolio P fuel user_id w1) as [[pf|e'|] w2]
    end; simpl in *; intros Heq; try discriminate.
    injection Heq as <-. right. by apply Hf.
  - destruct (last_portfolio (STATE w) !! pretty user_id) as [cached|];
      [done|].
    pose proof (Hfetch w) as Hf.
    destruct (fetch_portfolio P fuel user_id w) as [[pf|e'|] w2];
      simpl in *; intros Heq; try discriminate.
    injection Heq as <-. right. by apply Hf.
Qed.

(** With both caches filled the analysis is a function of the state: it
    returns, for every fuel, and leaves the world as it is. *)
Lemma analyze_portfolio_cached fuel user_id w cached :
  last_catalog (STATE w) ≠ ∅ →
  last_portfolio (STATE w) !! pretty user_id = Some cached →
  analyze_portfolio B P fuel user_id w =
    (Ok (suggestions_for B P (last_catalog (STATE w)) (gifts cached)
           (quotes_for P cached) (threshold (STATE w) user_id),
         (cached, (map_to_list (last_catalog (STATE w))).*2)), w).
Proof.
  intros Hcat Hpf. unfold analyze_portfolio. run.
  rewrite bool_decide_eq_false_2 by done. simpl. rewrite Hpf. done.
Qed.

End Run.

(** ** The rules of the analysis *)

Section Analysis.

Variable B : Builtins.
Variable P : Platform.

Implicit Types (w : World) (r : RegularGift) (u : UniqueGift).
Implicit Types (pre post : list GiftRecord).

Lemma fired_or_placeholder (l : list Suggestion) :
  l ≠ [] →
  match l with
  | [] => [placeholder]
  | _ :: _ => l
  end = l.
Proof. by destruct l. Qed.


Lemma app_app_cons_not_nil {A : Type} (l0 l1 l2 : list A) (x : A) :
  l0 ++ l1 ++ [x] ++ l2 ≠ [].
Proof. by destruct l0, l1. Qed.

Lemma bind_nil {A C : Type} (f : A → list C) (l : list A) :
  (∀ x, x ∈ l → f x = []) → l ≫= f = [].
Proof.
  induction l as [|x l IH]; intros Hf; simpl; [done|].
  rewrite (Hf x) by apply list_elem_of_here. simpl.
  apply IH. intros y Hy. apply Hf. by apply list_elem_of_further.
Qed.



Lemma can_transfer_iff u :
  can_transfer B P u = true ↔
    next_transfer_date u = None
    ∨ (∃ s t, next_transfer_date u = Some s
              ∧ fromisoformat_timestamp B s = Some t
              ∧ (t <= time_now P)%Q)
    ∨ (∃ s, next_transfer_date u = Some s
            ∧ fromisoformat_timestamp B s = None).
Proof.
  unfold can_transfer.
  destruct (next_transfer_date u) as [s|] eqn:Hs; simpl; [|by intuition].
  destruct (decide (s = "")) as [->|Hne].
  - rewrite bool_decide_eq_true_2 by done. simpl. split; [intros _|done].
    right. right. exists "". split; [done|].
    apply fromisoformat_timestamp_empty.
  - rewrite bool_decide_eq_false_2 by done. simpl.
    destruct (fromisoformat_timestamp B s) as [t|] eqn:Ht.
    + rewrite Qle_bool_iff. split.
      * intros Hle. right. left. exists s, t. done.
      * intros [?|[(s' & t' & [= <-] & Ht' & Hle)|(s' & [= <-] & Ht')]];
          [done| |congruence].
        rewrite Ht in Ht'. by injection Ht' as <-.
    + split; [intros _|done]. right. right. exists s. done.
Qed.

(** The quotes of [fetch_market_quotes_example]: a quote with no price for
    each of the ids asked about, and nothing else. *)
Lemma example_quotes_lookup (t : Q) (ids : list string) (k : string) :
  fetch_market_quotes_example t ids !! k =
    if decide (k ∈ ids)
    then Some {| q_gift_id := k; floor_stars := None;
                 last_trade_stars := None; q_ts := t |}
    else None.
Proof.
  unfold fetch_market_quotes_example.
  induction ids as [|k0 ids IH].
  - by rewrite decide_False by apply not_elem_of_nil.
  - rewrite fmap_cons, list_to_map_cons.
    destruct (decide (k0 = k)) as [->|Hne].
    + rewrite lookup_insert_eq.
      by rewrite decide_True by apply list_elem_of_here.
    + rewrite lookup_insert_ne by done. rewrite IH.
      destruct (decide (k ∈ ids)) as [Hin|Hin].
      * by rewrite decide_True by (by apply list_elem_of_further).
      * rewrite decide_False; [done|].
        rewrite elem_of_cons. intros [->|?]; done.
Qed.


(** With these quotes the turn of the loop for a unique item that can be
    transferred appends the bare sentence. *)
Lemma unique_rule_example_quotes (t : Q) (ids : list string) u :
  can_transfer B P u = true →
  unique_rule B P (fetch_market_quotes_example t ids) u
  = [{| title := "Уникальный готов к продаже: " +:+ u_gift_title u;
        details := "Можно переводить сейчас." |}].
Proof.
  intros Hnow. unfold unique_rule, unique_step. rewrite Hnow.
  destruct (truthy_str (u_gift_id u)); [|done].
  destruct (u_gift_id u) as [gid|]; simpl; [|done].
  rewrite example_quotes_lookup. by case_decide.
Qed.

(** The place of the suggestion of a unique item in the list returned. *)
Lemma unique_suggestion_in_place fuel user_id w res w' pre u post s :
  analyze_portfolio B P fuel user_id w = (Ok res, w') →
  gifts res.2.1 = pre ++ Unique u :: post →
  unique_rule B P (quotes_for P res.2.1) u = [s] →
  res.1 = (regulars_of (pre ++ post)
             ≫= regular_rule (last_catalog (STATE w'))
                  (threshold (STATE w) user_id))
          ++ (uniques_of pre ≫= unique_rule B P (quotes_for P res.2.1))
          ++ [s]
          ++ (uniques_of post ≫= unique_rule B P (quotes_for P res.2.1)).
Proof.
  intros Hrun Hgifts Hrule.
  destruct (analyze_portfolio_Ok B P fuel user_id w res w' Hrun)
    as (Hres & Hset & _).
  assert (Hm : threshold (STATE w') user_id = threshold (STATE w) user_id)
    by (unfold threshold; by rewrite Hset).
  rewrite Hres at 1. rewrite suggestions_for_fired, Hgifts, Hm, fired_unique.
  rewrite Hrule.
  apply fired_or_placeholder, app_app_cons_not_nil.
Qed.

(** C3: a unique item of the analysed portfolio gets a ready-to-sell
    suggestion if and only if it can be transferred now, that is when its
    [next_transfer_date] is absent, or reads as a time at or before the
    current one, or cannot be read as a date.  The suggestion is the one
    titled "Уникальный готов к продаже: " followed by the title of the item,
    with the details "Можно переводить сейчас."; it stands in the list
    returned at the place of the item, and it is neither the placeholder nor
    a suggestion for a regular item.  An item whose date reads as a time
    after the current one gets none, and the list returned is then the one
    of the portfolio without the item. *)
Theorem C3_ready_iff_transferable fuel user_id w res w' pre u post :
  analyze_portfolio B P fuel user_id w = (Ok res, w') →
  gifts res.2.1 = pre ++ Unique u :: post →
  let catalog := last_catalog (STATE w') in
  let quotes := quotes_for P res.2.1 in
  let m := threshold (STATE w) user_id in
  let can_transfer_now :=
    next_transfer_date u = None
    ∨ (∃ s t, next_transfer_date u = Some s
              ∧ fromisoformat_timestamp B s = Some t
              ∧ (t <= time_now P)%Q)
    ∨ (∃ s, next_transfer_date u = Some s
            ∧ fromisoformat_timestamp B s = None) in
  let ready :=
    {| title := "Уникальный готов к продаже: " +:+ u_gift_title u;
       details := "Можно переводить сейчас." |} in
  (can_transfer B P u = true ↔ can_transfer_now)
  ∧ (can_transfer_now →
     unique_rule B P quotes u = [ready]
     ∧ res.1 = (regulars_of (pre ++ post) ≫= regular_rule catalog m)
               ++ (uniques_of pre ≫= unique_rule B P quotes)
               ++ [ready]
               ++ (uniques_of post ≫= unique_rule B P quotes))
  ∧ (¬ can_transfer_now →
     unique_rule B P quotes u = []
     ∧ res.1 = suggestions_for B P catalog (pre ++ post) quotes m)
  ∧ (∀ s t, next_transfer_date u = Some s →
            fromisoformat_timestamp B s = Some t →
            (time_now P < t)%Q →
            ¬ can_transfer_now)
  ∧ ready ≠ placeholder
  ∧ (∀ r c, ready ≠ convert_suggestion r c ∧ ready ≠ upgrade_suggestion r c).
Proof.
  intros Hrun Hgifts catalog quotes m can_transfer_now ready.
  destruct (analyze_portfolio_Ok B P fuel user_id w res w' Hrun)
    as (Hres & Hset & _).
  assert (Hm : threshold (STATE w') user_id = m)
    by (unfold m, threshold; by rewrite Hset).
  pose proof (can_transfer_iff u) as Hiff. fold can_transfer_now in Hiff.
  split; [exact Hiff|]. split; [|split; [|split; [|split]]].
  - intros Hnow. apply Hiff in Hnow.
    assert (Hrule : unique_rule B P quotes u = [ready])
      by apply (unique_rule_example_quotes _ _ _ Hnow).
    split; [exact Hrule|].
    apply (unique_suggestion_in_place _ _ _ _ _ _ _ _ _ Hrun Hgifts Hrule).
  - intros Hnot.
    assert (Hrule : unique_rule B P quotes u = []).
    { unfold unique_rule, unique_step.
      destruct (can_transfer B P u); [|done].
      destruct Hnot. by apply Hiff. }
    split; [exact Hrule|].
    rewrite Hres, !suggestions_for_fired, Hgifts, Hm.
    fold catalog quotes.
    by rewrite (fired_unique_silent B P catalog quotes m pre u post Hrule).
  - intros s t Hs Ht Hlt
      [Hnone|[(s' & t' & Hs' & Ht' & Hle)|(s' & Hs' & Ht')]].
    + congruence.
    + rewrite Hs in Hs'. injection Hs' as <-.
      rewrite Ht in Ht'. injection Ht' as <-.
      by apply Qlt_not_le in Hlt.
    + rewrite Hs in Hs'. injection Hs' as <-. congruence.
  - intros Heq. apply (f_equal title) in Heq.
    vm_compute in Heq. congruence.
  - intros r c. split; intros Heq; apply (f_equal title) in Heq;
      vm_compute in Heq; congruence.
Qed.

(** C4: the list [analyze_portfolio] returns is never empty; when no item of
    the portfolio gets a suggestion, and so when the portfolio has no item,
    the list is one suggestion: the placeholder, titled
    "Пока без явных действий" with the details
    "Ждём изменений в каталоге/портфеле.", which is none of the suggestions
    the two loops make for an item. *)
Theorem C4_placeholder_when_nothing_fires fuel user_id w res w' :
  analyze_portfolio B P fuel user_id w = (Ok res, w') →
  let catalog := last_catalog (STATE w') in
  let quotes := quotes_for P res.2.1 in
  let m := threshold (STATE w) user_id in
  let no_action :=
    {| title := "Пока без явных действий";
       details := "Ждём изменений в каталоге/портфеле." |} in
  res.1 ≠ []
  ∧ ((∀ r, r ∈ regulars_of (gifts res.2.1) → regular_rule catalog m r = []) →
     (∀ u, u ∈ uniques_of (gifts res.2.1) → unique_rule B P quotes u = []) →
     res.1 = [no_action])
  ∧ (gifts res.2.1 = [] → res.1 = [no_action])
  ∧ placeholder = no_action
  ∧ (∀ r c, no_action ≠ convert_suggestion r c
            ∧ no_action ≠ upgrade_suggestion r c)
  ∧ (∀ u d, no_action ≠ ready_suggestion u d).
Proof.
  intros Hrun catalog quotes m no_action.
  destruct (analyze_portfolio_Ok B P fuel user_id w res w' Hrun)
    as (Hres & Hset & _).
  assert (Hm : threshold (STATE w') user_id = m)
    by (unfold m, threshold; by rewrite Hset).
  rewrite Hres, suggestions_for_fired, Hm. fold catalog quotes.
  split; [|split; [|split; [|split; [|split]]]].
  - by destruct (fired B P catalog quotes m (gifts res.2.1)).
  - intros Hregs Huniqs. unfold fired.
    by rewrite (bind_nil _ _ Hregs), (bind_nil _ _ Huniqs).
  - intros ->. done.
  - reflexivity.
  - intros r c. split; intros Heq; apply (f_equal title) in Heq;
      vm_compute in Heq; congruence.
  - intros u d Heq. apply (f_equal title) in Heq.
    vm_compute in Heq. congruence.
Qed.


End Analysis.

(** ** The watch timers *)

Section Watch.

Variable B : Builtins.
Variable P : Platform.
Variable DEFAULT_POLL_INTERVAL_SEC : Z.

Implicit Types (w : World) (j : Job).

(** The removal loop ends, takes out of the queue the jobs it is given and
    touches nothing else. *)
Lemma removal_loop (js : list Job) w :
  ∃ q, for_each js schedule_removal w =
         (Ok tt, {| STATE := STATE w; state_file := state_file w;
                    job_queue := q; next_job_id := next_job_id w;
                    api_log := api_log w; console := console w |})
       ∧ ∀ j, j ∈ q ↔ j ∈ job_queue w ∧ job_id j ∉ job_id <$> js.
Proof.
  revert w. induction js as [|j0 js IH]; intros w.
  - exists (job_queue w). split; [by destruct w|].
    intros j. split; [|by intros [Hj _]].
    intros Hj. split; [done|]. apply not_elem_of_nil.
  - simpl. unfold bind at 1. unfold schedule_removal at 1. run.
    match goal with |- context [for_each js schedule_removal ?w1] =>
      destruct (IH w1) as (q & -> & Hq)
    end.
    exists q. split; [done|]. simpl in Hq.
    intros j. rewrite Hq, list_elem_of_filter, not_elem_of_cons. tauto.
Qed.

(** The registration part of [watch_cmd]: the settings are stored and
    saved, the jobs under the name of the user leave the queue, the new job
    joins it and the reply is sent; an exception, if any, is one of the
    reply. *)
Lemma watch_cmd_register_run user ms mp w :
  ∃ q body,
    let s := set_settings
               (<[pretty user := {| min_profit_stars := ms;
                                    min_profit_pct := Some mp |}]>
                  (settings (STATE w))) (STATE w) in
    watch_cmd_register B P DEFAULT_POLL_INTERVAL_SEC user ms mp w =
      (match reply_text P body with
       | inr _ => Ok tt
       | inl e => Raise e
       end,
       {| STATE := s; state_file := Some (model_dump_json s);
          job_queue := q ++ [armed_job DEFAULT_POLL_INTERVAL_SEC user w];
          next_job_id := S (next_job_id w);
          api_log := api_log w ++ [ReplyText body];
          console := console w |})
    ∧ ∀ j, j ∈ q → j ∈ job_queue w ∧ job_name j ≠ "watch_" +:+ pretty user.
Proof.
  unfold watch_cmd_register, State_save, get_jobs_by_name, run_repeating.
  run.
  match goal with |- context [for_each ?js schedule_removal ?w1] =>
    destruct (removal_loop js w1) as (q & -> & Hq)
  end.
  simpl in *.
  match goal with |- context [reply_text P ?b] => exists q, b end.
  split.
  - by destruct (reply_text P _) as [e|[]].
  - intros j Hj. apply Hq in Hj as [Hin Hnot]. split; [done|].
    intros Hname. apply Hnot.
    apply list_elem_of_fmap. exists j. split; [done|].
    by apply list_elem_of_filter.
Qed.

(** [watch_cmd] for a user: the registration part once both arguments
    are read, an exception that leaves the world as it is otherwise. *)
Lemma watch_cmd_run update args user w :
  effective_user update = Some user →
  match min_stars_arg B args, min_pct_arg B args with
  | Some ms, Some mp =>
      watch_cmd B P DEFAULT_POLL_INTERVAL_SEC update args w =
        watch_cmd_register B P DEFAULT_POLL_INTERVAL_SEC user ms mp w
  | _, _ =>
      ∃ e, watch_cmd B P DEFAULT_POLL_INTERVAL_SEC update args w = (Raise e, w)
  end.
Proof.
  intros Huser. unfold watch_cmd. rewrite Huser.
  destruct (min_stars_arg B args) as [ms|]; [|run; eauto].
  destruct (min_pct_arg B args) as [mp|]; [done|run; eauto].
Qed.

Lemma filter_none {A : Type} (Q : A → Prop) `{!∀ x, Decision (Q x)}
    (l : list A) :
  (∀ x, x ∈ l → ¬ Q x) → filter Q l = [].
Proof.
  induction l as [|x l IH]; intros Hl; [done|].
  rewrite filter_cons_False by (apply Hl; left).
  apply IH. intros y Hy. apply Hl. by right.
Qed.

Lemma timers_after_register user ms mp w :
  timers_of user
    (watch_cmd_register B P DEFAULT_POLL_INTERVAL_SEC user ms mp w).2
  = [armed_job DEFAULT_POLL_INTERVAL_SEC user w].
Proof.
  destruct (watch_cmd_register_run user ms mp w) as (q & body & -> & Hq).
  unfold timers_of. simpl. rewrite filter_app.
  rewrite (filter_none _ q).
  - by rewrite filter_cons_True.
  - intros j Hj. by apply Hq in Hj as [_ Hne].
Qed.

(** One [watch_cmd] of a user leaves the user with the new timer alone, or
    raises and leaves the world as it is. *)
Lemma watch_cmd_timers update args user w :
  effective_user update = Some user →
  timers_of user (watch_cmd B P DEFAULT_POLL_INTERVAL_SEC update args w).2
    = [armed_job DEFAULT_POLL_INTERVAL_SEC user w]
  ∨ (watch_cmd B P DEFAULT_POLL_INTERVAL_SEC update args w).2 = w.
Proof.
  intros Huser. pose proof (watch_cmd_run update args user w Huser) as Hrun.
  destruct (min_stars_arg B args) as [ms|];
    [destruct (min_pct_arg B args) as [mp|]|].
  - left. rewrite Hrun. apply timers_after_register.
  - right. by destruct Hrun as [e ->].
  - right. by destruct Hrun as [e ->].
Qed.

Lemma one_timer_preserved user (cmds : list (Update * list string)) w :
  Forall (λ c, effective_user c.1 = Some user) cmds →
  length (timers_of user w) = 1%nat →
  length (timers_of user
            (after_watch_cmds B P DEFAULT_POLL_INTERVAL_SEC cmds w)) = 1%nat.
Proof.
  intros Hcmds. revert w.
  induction Hcmds as [|c cmds Hc _ IH]; intros w Hone; [done|].
  unfold after_watch_cmds. simpl. apply IH.
  destruct (watch_cmd_timers c.1 c.2 user w Hc) as [->| ->]; done.
Qed.

(** C6: a [/watch] of a user whose arguments are read takes every job
    under the name of the user out of the queue and then adds the new one, so
    the user has exactly one timer, the new one, whatever the queue held
    before; and after any further [/watch] commands of that user, read or
    refused, the user still has exactly one timer. *)
Theorem C6_one_timer_per_user update args user w rest :
  effective_user update = Some user →
  args_accepted B args →
  Forall (λ c, effective_user c.1 = Some user) rest →
  let w1 := (watch_cmd B P DEFAULT_POLL_INTERVAL_SEC update args w).2 in
  (∀ ms mp w0,
      timers_of user
        (watch_cmd_register B P DEFAULT_POLL_INTERVAL_SEC user ms mp w0).2
      = [armed_job DEFAULT_POLL_INTERVAL_SEC user w0])
  ∧ timers_of user w1 = [armed_job DEFAULT_POLL_INTERVAL_SEC user w]
  ∧ length (timers_of user
              (after_watch_cmds B P DEFAULT_POLL_INTERVAL_SEC rest w1))
    = 1%nat.
Proof.
  intros Huser [[ms Hms] [mp Hmp]] Hrest w1.
  split; [intros ms0 mp0 w0; apply timers_after_register|].
  assert (Hone : timers_of user w1
                 = [armed_job DEFAULT_POLL_INTERVAL_SEC user w]).
  { unfold w1. pose proof (watch_cmd_run update args user w Huser) as Hrun.
    rewrite Hms, Hmp in Hrun. rewrite Hrun. apply timers_after_register. }
  split; [exact Hone|].
  apply one_timer_preserved; [done|]. by rewrite Hone.
Qed.

(** C10: a [/watch] whose second argument [float] refuses raises and
    leaves the whole world, and so the settings, the state file and the
    timers of the user, as it was.  A first argument that is missing or not
    made of digits is read as 0 without an exception: with a second argument
    that is read, the command goes on to store 0 as the threshold. *)
Theorem C10_watch_refused_is_atomic update args user a w :
  effective_user update = Some user →
  args !! 1%nat = Some a →
  float_of_str B a = None →
  (∃ e, watch_cmd B P DEFAULT_POLL_INTERVAL_SEC update args w = (Raise e, w))
  ∧ (∀ args',
        (args' !! 0%nat = None
         ∨ ∃ a0, args' !! 0%nat = Some a0 ∧ str_isdigit B a0 = false) →
        min_stars_arg B args' = Some 0
        ∧ ∀ pct, min_pct_arg B args' = Some pct →
            watch_cmd B P DEFAULT_POLL_INTERVAL_SEC update args' w =
              watch_cmd_register B P DEFAULT_POLL_INTERVAL_SEC user 0 pct w
            ∧ settings
                (STATE (watch_cmd B P DEFAULT_POLL_INTERVAL_SEC
                          update args' w).2) !! pretty user
              = Some {| min_profit_stars := 0;
                        min_profit_pct := Some pct |}).
Proof.
  intros Huser Harg Hfloat. split.
  - pose proof (watch_cmd_run update args user w Huser) as Hrun.
    assert (Hpct : min_pct_arg B args = None)
      by (unfold min_pct_arg; by rewrite Harg).
    rewrite Hpct in Hrun. by destruct (min_stars_arg B args).
  - intros args' Hfirst.
    assert (Hms : min_stars_arg B args' = Some 0).
    { unfold min_stars_arg.
      destruct Hfirst as [->|(a0 & -> & ->)]; done. }
    split; [exact Hms|]. intros pct Hpct.
    pose proof (watch_cmd_run update args' user w Huser) as Hrun.
    rewrite Hms, Hpct in Hrun. split; [exact Hrun|].
    rewrite Hrun.
    destruct (watch_cmd_register_run user 0 pct w) as (q & body & -> & _).
    simpl. apply lookup_insert_eq.
Qed.

(** C7: [watch_tick] never ends with an exception.  An exception of its
    [try] block, whichever request or step raised it, is caught: the tick
    prints it to the console and ends normally.  The tick does not end only
    when the [try] block does not. *)
Theorem C7_tick_never_raises fuel job w :
  (∀ e, (watch_tick B P fuel job w).1 ≠ Raise e)
  ∧ (∀ e w1,
        watch_tick_try B P fuel (job_user_id job) w = (Raise e, w1) →
        watch_tick B P fuel job w =
          (Ok tt,
           {| STATE := STATE w1; state_file := state_file w1;
              job_queue := job_queue w1; next_job_id := next_job_id w1;
              api_log := api_log w1;
              console := console w1
                         ++ ["[watch_tick] error: " +:+ str_exn e] |}))
  ∧ ((watch_tick B P fuel job w).1 = Diverge
     ↔ (watch_tick_try B P fuel (job_user_id job) w).1 = Diverge).
Proof.
  unfold watch_tick, try_except, print.
  destruct (watch_tick_try B P fuel (job_user_id job) w) as [[[]|e|] w1];
    simpl; split_and!; try done.
  by intros e' w1' [= <- <-].
Qed.

End Watch.

(** ** The file store *)

Section Store.

Variable B : Builtins.
Variable P : Platform.

Implicit Types (w : World) (s : State).

Lemma load_dump_settings (x : Settings) :
  finite_pct x → load_settings (dump_settings x) = x.
Proof.
  unfold finite_pct, load_settings, dump_settings.
  destruct x as [ms [[q|neg|]|]]; simpl; done.
Qed.

(** Reading back what [save] wrote gives the state again when every value
    of [chats] is an integer and no float of the settings is an infinity or a
    NaN; a [None] among the values of [chats] makes [load] raise. *)
Lemma State_save_load w :
  let w1 := (State_save w).2 in
  (map_Forall (λ _ v, is_Some v) (chats (STATE w)) →
   map_Forall (λ _ x, finite_pct x) (settings (STATE w)) →
   State_load w1 = (Ok (STATE w), w1))
  ∧ (∀ k, chats (STATE w) !! k = Some None →
          ∃ msg, State_load w1 = (Raise (ValidationError msg), w1)).
Proof.
  unfold State_save, State_load, model_validate. run. split.
  - intros Hall Hfin. rewrite bool_decide_eq_true_2 by done.
    assert (Hset : load_settings <$> (dump_settings <$> settings (STATE w))
                   = settings (STATE w)).
    { apply map_eq. intros k. rewrite !lookup_fmap.
      destruct (settings (STATE w) !! k) as [x|] eqn:Hk; simpl; [|done].
      by rewrite (load_dump_settings x (Hfin k x Hk)). }
    rewrite Hset. by destruct (STATE w).
  - intros k Hk. rewrite bool_decide_eq_false_2; [eauto|].
    intros Hall. specialize (Hall k None Hk). by destruct Hall.
Qed.

(** The requests of the page loop come after those already sent. *)
Lemma fetch_pages_log fuel bc offset acc w :
  ∃ l, api_log (fetch_pages P fuel bc offset acc w).2 = api_log w ++ l.
Proof.
  revert offset acc w.
  induction fuel as [|fuel IH]; intros offset acc w; simpl.
  - exists []. by rewrite app_nil_r.
  - run. destruct (get_business_account_gifts P bc offset) as [e|resp];
      [by eexists|].
    destruct (truthy_str (next_offset resp)); [|by eexists].
    match goal with |- context [fetch_pages P fuel bc ?o ?a ?w1] =>
      destruct (IH o a w1) as [l ->] end.
    simpl. rewrite <- app_assoc. by eexists.
Qed.

Lemma fetch_portfolio_log fuel user_id w :
  ∃ l, api_log (fetch_portfolio P fuel user_id w).2 = api_log w ++ l.
Proof.
  unfold fetch_portfolio. run.
  destruct (truthy_str (connections (STATE w) !! pretty user_id));
    [|exists []; by rewrite app_nil_r].
  destruct (fetch_pages_log fuel
              (default "" (connections (STATE w) !! pretty user_id))
              None [] w) as [l Hl].
  destruct (fetch_pages P fuel _ None [] w) as [[r|e|] w1]; simpl in *;
    unfold State_save; run; eauto.
Qed.

(** With an empty cached catalog the analysis asks the platform for the
    catalog first. *)
Lemma analyze_portfolio_fetches_catalog fuel user_id w :
  last_catalog (STATE w) = ∅ →
  ∃ l, api_log (analyze_portfolio B P fuel user_id w).2
       = api_log w ++ GetAvailableGifts :: l.
Proof.
  intros Hcat. unfold analyze_portfolio.
  unfold bind at 1. unfold get_STATE at 1. unfold bind at 1.
  rewrite bool_decide_eq_true_2 by done.
  unfold bind at 1. rewrite build_catalog_run. simpl.
  destruct (get_available_gifts P) as [e|gifts_obj]; [by exists []|].
  unfold ret at 1. unfold bind at 1. unfold get_STATE at 1.
  unfold bind at 1. simpl.
  destruct (last_portfolio (STATE w) !! pretty user_id) as [cached|].
  - run. by exists [].
  - match goal with |- context [fetch_portfolio P fuel user_id ?w1] =>
      destruct (fetch_portfolio_log fuel user_id w1) as [l Hl];
      destruct (fetch_portfolio P fuel user_id w1) as [[pf|e|] w2]
    end; run; simpl in *; rewrite Hl, <- app_assoc; by eexists.
Qed.

(** C8, as the code has it: when the cached catalog is not empty and a
    portfolio is cached for the user, [analyze_portfolio] returns, for every
    fuel, and leaves the whole world as it was: the state, the state file and
    the list of the requests sent. *)
Theorem C8_analysis_of_cached_data_is_pure fuel user_id w cached :
  last_catalog (STATE w) ≠ ∅ →
  last_portfolio (STATE w) !! pretty user_id = Some cached →
  (analyze_portfolio B P fuel user_id w).2 = w
  ∧ (analyze_portfolio B P fuel user_id w).1 =
      Ok (suggestions_for B P (last_catalog (STATE w)) (gifts cached)
            (quotes_for P cached) (threshold (STATE w) user_id),
          (cached, (map_to_list (last_catalog (STATE w))).*2)).
Proof.
  intros Hcat Hpf.
  by rewrite (analyze_portfolio_cached B P fuel user_id w cached Hcat Hpf).
Qed.

End Store.

(** C9: after the update of a business connection of a user who has no
    chat, [STATE.chats] holds [None] for the user and is saved so; [load]
    then raises on the saved file instead of giving the state back. *)
Theorem C9_reload_fails_after_connection :
  let w1 := (on_business_connection quiet_platform connect_update
               fresh_world).2 in
  chats (STATE w1) !! "7" = Some None
  ∧ state_file w1 = Some (model_dump_json (STATE w1))
  ∧ State_load w1
    = (Raise (ValidationError "chats: Input should be a valid integer"), w1).
Proof. vm_compute. done. Qed.

(** * Examples *)

(** [/watch 100 nan] stores a NaN, which is saved as [null] and read back
    as [None]. *)
Lemma watch_nan_not_read_back :
  let w1 := (watch_cmd example_runtime quiet_platform 1800 command_update
               ["100"; "nan"] fresh_world).2 in
  settings (STATE w1) !! "7"
  = Some {| min_profit_stars := 100; min_profit_pct := Some FNan |}
  ∧ ∃ s, State_load w1 = (Ok s, w1)
         ∧ settings s !! "7"
           = Some {| min_profit_stars := 100; min_profit_pct := None |}.
Proof. vm_compute. split; [done|]. eexists. split; [done|]. done. Qed.

(** The analysis of the example portfolio: one suggestion for each of the
    first two regular gifts and for the free unique gift, none for the
    others. *)
Lemma analyze_example_portfolio :
  analyze_portfolio example_runtime quiet_platform 0 7
    (example_world example_portfolio)
  = (Ok ([convert_suggestion r_150 (Some 150);
          upgrade_suggestion r_50 (Some 25);
          ready_suggestion u_free ready_details],
         (example_portfolio, [example_entry])),
     example_world example_portfolio).
Proof. vm_compute. reflexivity. Defined.

Lemma example_catalog_filled (portfolio : Portfolio) :
  last_catalog (STATE (example_world portfolio)) ≠ ∅.
Proof.
  intros Heq. apply (f_equal (λ m, m !! "g1")) in Heq.
  vm_compute in Heq. discriminate.
Defined.



(** The analysis of a portfolio with the locked gift alone gives the
    placeholder alone. *)
Lemma analyze_locked_portfolio :
  analyze_portfolio example_runtime quiet_platform 0 7
    (example_world locked_portfolio)
  = (Ok ([placeholder], (locked_portfolio, [example_entry])),
     example_world locked_portfolio).
Proof. vm_compute. reflexivity. Defined.


Lemma C3_witness :
  can_transfer example_runtime quiet_platform u_free = true
  ∧ unique_rule example_runtime quiet_platform
      (quotes_for quiet_platform example_portfolio) u_free
    = [{| title := "Уникальный готов к продаже: Unique";
          details := "Можно переводить сейчас." |}]
  ∧ unique_rule example_runtime quiet_platform
      (quotes_for quiet_platform locked_portfolio) u_locked = [].
Proof.
  destruct (C3_ready_iff_transferable example_runtime quiet_platform 0 7
              (example_world example_portfolio) _
              (example_world example_portfolio)
              [Regular r_150; Regular r_50; Regular r_plain] u_free
              [Unique u_locked] analyze_example_portfolio eq_refl)
    as (Hiff & Hready & _).
  split; [apply Hiff; left; reflexivity|].
  split; [apply Hready; left; reflexivity|].
  destruct (C3_ready_iff_transferable example_runtime quiet_platform 0 7
              (example_world locked_portfolio) _
              (example_world locked_portfolio)
              [] u_locked [] analyze_locked_portfolio eq_refl)
    as (_ & _ & Hnone & Hfuture & _).
  apply Hnone.
  apply (Hfuture "2100-01-01T00:00:00+00:00" (inject_Z 4102444800));
    by vm_compute.
Defined.

Lemma C4_witness :
  (analyze_portfolio example_runtime quiet_platform 0 7
     (example_world locked_portfolio)).1
  = Ok ([{| title := "Пока без явных действий";
            details := "Ждём изменений в каталоге/портфеле." |}],
        (locked_portfolio, [example_entry]))
  ∧ [placeholder]
    = [{| title := "Пока без явных действий";
          details := "Ждём изменений в каталоге/портфеле." |}]
  ∧ [placeholder] ≠ [].
Proof.
  destruct (C4_placeholder_when_nothing_fires example_runtime quiet_platform
              0 7 (example_world locked_portfolio)
              ([placeholder], (locked_portfolio, [example_entry]))
              (example_world locked_portfolio) analyze_locked_portfolio)
    as (Hne & Hsilent & _).
  split; [by rewrite analyze_locked_portfolio|].
  split; [|exact Hne].
  apply Hsilent.
  - intros r Hr. vm_compute in Hr. by apply elem_of_nil in Hr.
  - intros u Hu. apply list_elem_of_singleton in Hu as ->. by vm_compute.
Defined.


(** With quotes that give a floor price of 0 stars, the turn of the loop
    writes no price. *)
Lemma unique_rule_zero_floor :
  unique_rule example_runtime quiet_platform
    (flat_quotes (Some 0) ["u1"]) u_free
  = [{| title := "Уникальный готов к продаже: Unique";
        details := "Можно переводить сейчас." |}].
Proof. by vm_compute. Qed.

Lemma C6_witness :
  timers_of 7
    (watch_cmd example_runtime quiet_platform 1800 command_update
       ["100"; "5"] crowded_world).2
  = [armed_job 1800 7 crowded_world]
  ∧ length
      (timers_of 7
         (after_watch_cmds example_runtime quiet_platform 1800
            [(command_update, ["250"]); (command_update, ["100"; "abc"])]
            (watch_cmd example_runtime quiet_platform 1800 command_update
               ["100"; "5"] crowded_world).2))
    = 1%nat.
Proof.
  apply (C6_one_timer_per_user example_runtime quiet_platform 1800
           command_update ["100"; "5"] 7 crowded_world
           [(command_update, ["250"]); (command_update, ["100"; "abc"])]).
  - reflexivity.
  - split; vm_compute; eexists; reflexivity.
  - repeat constructor.
Defined.

(** The gifts of two pages, fetched with fuel for two turns of the loop. *)
Lemma fetch_two_pages :
  (fetch_portfolio paged_platform 2 7 connected_world).1
  = Ok {| total_count := 2;
          gifts := [Regular r_150;
                    Unique {| u_gift_id := None; u_gift_title := "Unique";
                              rank := None; can_be_transferred := Some true;
                              transfer_star_count := None;
                              next_transfer_date := None |}];
          ts := Some (time_now paged_platform) |}
  ∧ api_log (fetch_portfolio paged_platform 2 7 connected_world).2
    = [GetBusinessAccountGifts "bc7" None;
       GetBusinessAccountGifts "bc7" (Some "1")]
  ∧ (fetch_portfolio paged_platform 1 7 connected_world).1 = Diverge.
Proof. by vm_compute. Qed.

(** On a platform whose pages never end the loop does not end, whatever
    the fuel. *)
Lemma fetch_endless_pages fuel bc offset acc w :
  (fetch_pages endless_platform fuel bc offset acc w).1 = Diverge.
Proof.
  revert offset acc w. induction fuel as [|fuel IH]; intros offset acc w;
    [done|].
  simpl. unfold bind, request. simpl. apply IH.
Qed.

(** The first tick of a user with a connection and a chat: the tick fetches
    the catalog and the two pages and sends one message. *)
Lemma watch_tick_first_run :
  (watch_tick example_runtime paged_platform 2
     (armed_job 1800 7 connected_world) connected_world).1 = Ok tt
  ∧ ∃ body,
      api_log (watch_tick example_runtime paged_platform 2
                 (armed_job 1800 7 connected_world) connected_world).2
      = [GetAvailableGifts; GetBusinessAccountGifts "bc7" None;
         GetBusinessAccountGifts "bc7" (Some "1");
         SendMessage (Some 42) body].
Proof. vm_compute. split; [done|by eexists]. Qed.

(** The first [/watch] of a fresh process, sent twice: one job each time. *)
Lemma watch_twice_in_succession :
  job_queue
    (after_watch_cmds example_runtime quiet_platform 1800
       [(command_update, ["100"; "5"]); (command_update, ["100"; "5"])]
       fresh_world)
  = [{| job_id := 1; job_name := "watch_7"; job_interval := 1800;
        job_user_id := 7 |}].
Proof. vm_compute. reflexivity. Qed.

(** The platform fails on the catalog request: the tick ends normally with
    the error on the console and nothing stored. *)
Lemma watch_tick_fetch_failure_logged :
  watch_tick example_runtime failing_platform 1
    {| job_id := 0; job_name := "watch_7"; job_interval := 1800;
       job_user_id := 7 |} fresh_world
  = (Ok tt,
     {| STATE := State_default; state_file := None; job_queue := [];
        next_job_id := 0; api_log := [GetAvailableGifts];
        console := ["[watch_tick] error: Timed out"] |}).
Proof. vm_compute. reflexivity. Qed.

(** The platform fails on the message: the tick ends normally with the
    error on the console. *)
Lemma watch_tick_send_failure_logged :
  (watch_tick example_runtime failing_platform 1
     {| job_id := 0; job_name := "watch_7"; job_interval := 1800;
        job_user_id := 7 |} (example_world locked_portfolio)).1 = Ok tt
  ∧ console
      (watch_tick example_runtime failing_platform 1
         {| job_id := 0; job_name := "watch_7"; job_interval := 1800;
            job_user_id := 7 |} (example_world locked_portfolio)).2
    = ["[watch_tick] error: Timed out"]
  ∧ ∃ body,
      api_log
        (watch_tick example_runtime failing_platform 1
           {| job_id := 0; job_name := "watch_7"; job_interval := 1800;
              job_user_id := 7 |} (example_world locked_portfolio)).2
      = [SendMessage (Some 42) body].
Proof. vm_compute. split_and!; [done|done|by eexists]. Qed.

(** A fresh process and a platform with one gift in its catalog: the
    analysis asks for the catalog, stores it and writes the state file. *)
Lemma C8_counterexample_empty_cache :
  (∃ res, (analyze_portfolio example_runtime catalog_platform 0 7
             fresh_world).1 = Ok res)
  ∧ last_catalog
      (STATE (analyze_portfolio example_runtime catalog_platform 0 7
                fresh_world).2) !! "g1" = Some example_entry
  ∧ last_catalog (STATE fresh_world) !! "g1" = None
  ∧ state_file fresh_world = None
  ∧ state_file (analyze_portfolio example_runtime catalog_platform 0 7
                  fresh_world).2 ≠ None
  ∧ api_log fresh_world = []
  ∧ api_log (analyze_portfolio example_runtime catalog_platform 0 7
               fresh_world).2 = [GetAvailableGifts].
Proof. vm_compute. split_and!; try done. by eexists. Qed.

Lemma C8_witness :
  last_portfolio (STATE (example_world example_portfolio)) !! pretty 7
  = Some example_portfolio
  ∧ (analyze_portfolio example_runtime quiet_platform 0 7
       (example_world example_portfolio)).2
    = example_world example_portfolio.
Proof.
  assert (Hpf : last_portfolio (STATE (example_world example_portfolio))
                  !! pretty 7 = Some example_portfolio) by (by vm_compute).
  split; [exact Hpf|].
  apply (C8_analysis_of_cached_data_is_pure example_runtime quiet_platform
           0 7 (example_world example_portfolio) example_portfolio
           (example_catalog_filled example_portfolio) Hpf).
Defined.

Lemma C10_witness :
  float_of_str example_runtime "abc" = None
  ∧ ∃ e, watch_cmd example_runtime quiet_platform 1800 command_update
           ["100"; "abc"] crowded_world
         = (Raise e, crowded_world).
Proof.
  split; [reflexivity|].
  apply (C10_watch_refused_is_atomic example_runtime quiet_platform 1800
           command_update ["100"; "abc"] 7 "abc" crowded_world);
    reflexivity.
Defined.

(** [/watch abc 5]: the threshold stored is 0. *)
Lemma watch_non_digit_threshold :
  (watch_cmd example_runtime quiet_platform 1800 command_update
     ["abc"; "5"] fresh_world).1 = Ok tt
  ∧ settings
      (STATE (watch_cmd example_runtime quiet_platform 1800 command_update
                ["abc"; "5"] fresh_world).2) !! "7"
    = Some {| min_profit_stars := 0;
              min_profit_pct := Some (FFinite (inject_Z 5)) |}.
Proof. by vm_compute. Qed.

(** * Further properties *)

(** ** Catalog and portfolio *)

Section Caches.

Variable B : Builtins.
Variable P : Platform.

Implicit Types (w : World) (catalog : list CatalogEntry).

Lemma dict_by_id_from (d : gmap string CatalogEntry) catalog k :
  foldl (λ d g, <[c_id g := g]> d) d catalog !! k =
    match last (filter (λ g, c_id g = k) catalog) with
    | Some g => Some g
    | None => d !! k
    end.
Proof.
  revert d. induction catalog as [|g catalog IH]; intros d; [done|].
  simpl. rewrite IH.
  destruct (decide (c_id g = k)) as [Hk|Hk].
  - rewrite filter_cons_True by done. rewrite last_cons.
    destruct (last (filter _ catalog)); [done|].
    rewrite <- Hk. apply lookup_insert_eq.
  - rewrite filter_cons_False by done.
    destruct (last (filter _ catalog)); [done|].
    by apply lookup_insert_ne.
Qed.

(** In the dictionary built from a catalog list, an id gives the last entry
    of the list with that id, and nothing when the list has none. *)
Lemma dict_by_id_last_wins catalog k :
  dict_by_id catalog !! k = last (filter (λ g, c_id g = k) catalog).
Proof.
  unfold dict_by_id. rewrite dict_by_id_from.
  by destruct (last (filter _ catalog)).
Qed.

Lemma emoji_or_nonempty emoji dflt : dflt ≠ "" → emoji_or emoji dflt ≠ "".
Proof.
  intros Hd. unfold emoji_or. destruct emoji as [e|]; [|done].
  by case_bool_decide.
Qed.

(** X1: a catalog that [build_catalog] returns is the list of the gifts of the
    platform, each with a title that is not empty; the cached catalog is
    replaced as a whole by the dictionary of that list, and saved; the rest
    of the state is left as it was. *)
Theorem build_catalog_replaces_cache w catalog w' :
  build_catalog P w = (Ok catalog, w') →
  (∃ gifts_obj, get_available_gifts P = inr gifts_obj
                ∧ catalog = catalog_entry <$> gifts_obj)
  ∧ Forall (λ g, c_title g ≠ "") catalog
  ∧ (∀ k, last_catalog (STATE w') !! k
          = last (filter (λ g, c_id g = k) catalog))
  ∧ state_file w' = Some (model_dump_json (STATE w'))
  ∧ connections (STATE w') = connections (STATE w)
  ∧ chats (STATE w') = chats (STATE w)
  ∧ settings (STATE w') = settings (STATE w)
  ∧ last_portfolio (STATE w') = last_portfolio (STATE w)
  ∧ api_log w' = api_log w ++ [GetAvailableGifts].
Proof.
  rewrite build_catalog_run. simpl.
  destruct (get_available_gifts P) as [e|gifts_obj]; [done|].
  intros [= <- <-]. simpl. split_and!; try done.
  - by exists gifts_obj.
  - apply Forall_fmap, Forall_forall. intros g _. simpl.
    by apply emoji_or_nonempty.
  - intros k. apply dict_by_id_last_wins.
Qed.

(** X2: a fetch of the portfolio that does not return one, for an exception or
    for pages that do not end, leaves the state and the state file as they
    were: the pages read so far are dropped. *)
Theorem fetch_portfolio_all_or_nothing fuel user_id w :
  (∀ pf, (fetch_portfolio P fuel user_id w).1 ≠ Ok pf) →
  STATE (fetch_portfolio P fuel user_id w).2 = STATE w
  ∧ state_file (fetch_portfolio P fuel user_id w).2 = state_file w.
Proof.
  unfold fetch_portfolio. run.
  destruct (truthy_str (connections (STATE w) !! pretty user_id));
    [|by intros H; destruct (H _ eq_refl)].
  pose proof (fetch_pages_frame P fuel
                (default "" (connections (STATE w) !! pretty user_id))
                None [] w) as (HS & HF & _).
  destruct (fetch_pages P fuel _ None [] w) as [[r|e|] w1]; simpl in *;
    [|done|done].
  unfold State_save. run. intros H. by destruct (H _ eq_refl).
Qed.

(** X3: a portfolio fetched for a user with a connection is stored under the
    user, stamped with the current time and saved; the portfolios of the
    other users and the rest of the state are left as they were. *)
Theorem fetch_portfolio_caches fuel user_id w pf w' :
  fetch_portfolio P fuel user_id w = (Ok pf, w') →
  truthy_str (connections (STATE w) !! pretty user_id) = true →
  last_portfolio (STATE w')
    = <[pretty user_id := pf]> (last_portfolio (STATE w))
  ∧ ts pf = Some (time_now P)
  ∧ state_file w' = Some (model_dump_json (STATE w'))
  ∧ connections (STATE w') = connections (STATE w)
  ∧ chats (STATE w') = chats (STATE w)
  ∧ settings (STATE w') = settings (STATE w)
  ∧ last_catalog (STATE w') = last_catalog (STATE w).
Proof.
  unfold fetch_portfolio. run. intros Hrun Hconn. rewrite Hconn in Hrun.
  pose proof (fetch_pages_frame P fuel
                (default "" (connections (STATE w) !! pretty user_id))
                None [] w) as (HS & _).
  destruct (fetch_pages P fuel _ None [] w) as [[r|e|] w1]; simpl in *;
    [|done|done].
  revert Hrun. unfold State_save. run. intros [= <- <-]. simpl.
  rewrite HS. done.
Qed.

Lemma portfolio_item_title og : gift_title (portfolio_item og) ≠ "".
Proof. destruct og; simpl; by apply emoji_or_nonempty. Qed.

Lemma fetch_pages_titles fuel bc offset acc w r w' :
  fetch_pages P fuel bc offset acc w = (Ok r, w') →
  Forall (λ g, gift_title g ≠ "") acc →
  Forall (λ g, gift_title g ≠ "") r.2.
Proof.
  revert offset acc w.
  induction fuel as [|fuel IH]; intros offset acc w; simpl; [done|].
  run. destruct (get_business_account_gifts P bc offset) as [e|resp]; [done|].
  intros Hrun Hacc.
  assert (Hall : Forall (λ g, gift_title g ≠ "")
                   (acc ++ (portfolio_item <$> p_gifts resp))).
  { apply Forall_app. split; [done|].
    apply Forall_fmap, Forall_forall. intros og _.
    apply portfolio_item_title. }
  destruct (truthy_str (next_offset resp)).
  - by apply (IH _ _ _ Hrun).
  - by injection Hrun as <- <-.
Qed.

(** X4: every item of a fetched portfolio has a title that is not empty: the
    emoji of its sticker, or ["Gift"] or ["Unique"] without one. *)
Theorem fetched_titles_nonempty fuel user_id w pf w' :
  fetch_portfolio P fuel user_id w = (Ok pf, w') →
  Forall (λ g, gift_title g ≠ "") (gifts pf).
Proof.
  unfold fetch_portfolio. run.
  destruct (truthy_str (connections (STATE w) !! pretty user_id));
    [|by intros [= <- <-]].
  destruct (fetch_pages P fuel _ None [] w) as [[r|e|] w1] eqn:Hpages;
    simpl; [|done|done].
  unfold State_save. run. intros [= <- <-]. simpl.
  by apply (fetch_pages_titles _ _ _ _ _ _ _ Hpages).
Qed.

End Caches.

(** ** More on the analysis *)

Section MoreAnalysis.

Variable B : Builtins.
Variable P : Platform.

Implicit Types (w : World) (u : UniqueGift) (r : RegularGift).

(** X5: for a user with no connection and no cached portfolio, and a cached
    catalog, the analysis asks the platform nothing, stores nothing and
    returns the placeholder alone with an empty portfolio, for every fuel. *)
Theorem analyze_unconnected_user fuel user_id w :
  last_catalog (STATE w) ≠ ∅ →
  last_portfolio (STATE w) !! pretty user_id = None →
  truthy_str (connections (STATE w) !! pretty user_id) = false →
  analyze_portfolio B P fuel user_id w =
    (Ok ([placeholder],
         ({| total_count := 0; gifts := []; ts := None |},
          (map_to_list (last_catalog (STATE w))).*2)), w).
Proof.
  intros Hcat Hpf Hconn. unfold analyze_portfolio. run.
  rewrite bool_decide_eq_false_2 by done. simpl. rewrite Hpf.
  unfold fetch_portfolio. run. rewrite Hconn. done.
Qed.

(** X6: an empty catalog is not kept: when the platform has no gift and the
    cached catalog is empty, the analysis asks for the catalog and the cache
    is still empty afterwards, so the next analysis asks again. *)
Theorem empty_catalog_is_fetched_again fuel user_id w :
  get_available_gifts P = inr [] →
  last_catalog (STATE w) = ∅ →
  last_catalog (STATE (analyze_portfolio B P fuel user_id w).2) = ∅
  ∧ ∃ l, api_log (analyze_portfolio B P fuel user_id w).2
         = api_log w ++ GetAvailableGifts :: l.
Proof.
  intros Hgifts Hcat.
  split; [|by apply analyze_portfolio_fetches_catalog].
  unfold analyze_portfolio. run.
  rewrite bool_decide_eq_true_2 by done.
  rewrite build_catalog_run, Hgifts. simpl.
  destruct (last_portfolio (STATE w) !! pretty user_id) as [cached|];
    [done|].
  match goal with |- context [fetch_portfolio P fuel user_id ?w1] =>
    pose proof (fetch_portfolio_frame P fuel user_id w1)
      as (_ & _ & _ & HL & _);
    destruct (fetch_portfolio P fuel user_id w1) as [[pf|e|] w2]
  end; simpl in *; by rewrite HL.
Qed.

(** X7: the quote source the program ships with answers each of the ids it is
    asked about with a quote that has no price.  With it the loop over the
    unique items never writes a price: an item that can be transferred gets
    the bare sentence, another item nothing. *)
Theorem shipped_quotes_give_no_price (t : Q) (ids : list string) :
  (∀ k, fetch_market_quotes_example t ids !! k =
          if decide (k ∈ ids)
          then Some {| q_gift_id := k; floor_stars := None;
                       last_trade_stars := None; q_ts := t |}
          else None)
  ∧ (∀ u, unique_rule B P (fetch_market_quotes_example t ids) u =
            if can_transfer B P u
            then [ready_suggestion u ready_details]
            else []).
Proof.
  split; [intros k; apply example_quotes_lookup|].
  intros u. unfold unique_rule, unique_step.
  destruct (can_transfer B P u); [|done].
  destruct (truthy_str (u_gift_id u)); [|done].
  destruct (u_gift_id u) as [gid|]; simpl; [|done].
  rewrite example_quotes_lookup. by case_decide.
Qed.

Lemma bind_length_le {A C : Type} (f : A → list C) (l : list A) :
  (∀ x, (length (f x) ≤ 1)%nat) → (length (l ≫= f) ≤ length l)%nat.
Proof.
  intros Hf. induction l as [|x l IH]; [done|].
  rewrite bind_cons, length_app. specialize (Hf x). simpl. lia.
Qed.

Lemma classes_length (gs : list GiftRecord) :
  (length (regulars_of gs) + length (uniques_of gs))%nat = length gs.
Proof.
  unfold regulars_of, uniques_of.
  induction gs as [|[r|u] gs IH]; simpl; [done| |].
  - f_equal. exact IH.
  - rewrite Nat.add_succ_r. f_equal. exact IH.
Qed.

(** X8: the analysis gives at most one suggestion for each item of the
    portfolio, and one for a portfolio with no item. *)
Theorem at_most_one_suggestion_per_item fuel user_id w res w' :
  analyze_portfolio B P fuel user_id w = (Ok res, w') →
  (length res.1 ≤ Nat.max 1 (length (gifts res.2.1)))%nat.
Proof.
  intros Hrun.
  destruct (analyze_portfolio_Ok B P fuel user_id w res w' Hrun)
    as (-> & _).
  rewrite suggestions_for_fired.
  assert (Hlen : (length (fired B P (last_catalog (STATE w'))
                            (quotes_for P res.2.1)
                            (threshold (STATE w') user_id) (gifts res.2.1))
                  ≤ length (gifts res.2.1))%nat).
  { unfold fired. rewrite length_app, <- (classes_length (gifts res.2.1)).
    apply Nat.add_le_mono; apply bind_length_le.
    - intros r. unfold regular_rule, regular_step.
      repeat case_match; simpl; lia.
    - intros u. unfold unique_rule, unique_step.
      repeat case_match; simpl; lia. }
  destruct (fired _ _ _ _ _ _); simpl in *; lia.
Qed.

End MoreAnalysis.

(** ** More on the file store *)

Section MoreStore.

Implicit Types (w : World) (s : State).

(** X9: saving and then loading gives the state back when every value of
    [chats] is an integer and no float of the settings is an infinity or a
    NaN. *)
Theorem State_roundtrip_wellformed w :
  map_Forall (λ _ v, is_Some v) (chats (STATE w)) →
  map_Forall (λ _ x, finite_pct x) (settings (STATE w)) →
  State_load (State_save w).2 = (Ok (STATE w), (State_save w).2).
Proof. intros Hchats Hset. by apply (State_save_load w). Qed.

(** What [load] returns has integers in [chats] and no infinity or NaN in
    the settings. *)
Lemma State_load_wellformed w s :
  (State_load w).1 = Ok s →
  map_Forall (λ _ v, is_Some v) (chats s)
  ∧ map_Forall (λ _ x, finite_pct x) (settings s).
Proof.
  unfold State_load, model_validate.
  destruct (state_file w) as [data|]; simpl.
  - case_bool_decide as Hchats; simpl; [|done].
    intros [= <-]. simpl. split; [done|].
    intros k x. rewrite lookup_fmap.
    destruct (j_settings data !! k) as [j|]; simpl; [|done].
    intros [= <-]. unfold finite_pct, load_settings. simpl.
    by destruct (j_min_profit_pct j).
  - intros [= <-]. simpl. split; apply map_Forall_empty.
Qed.

(** X10: a state that was loaded, from a file or as the defaults when there is
    none, is read back as it is once saved. *)
Theorem State_reload_is_stable w s w0 :
  (State_load w).1 = Ok s →
  STATE w0 = s →
  State_load (State_save w0).2 = (Ok s, (State_save w0).2).
Proof.
  intros Hload <-. destruct (State_load_wellformed w _ Hload).
  by apply (State_save_load w0).
Qed.

End MoreStore.

(** ** More on the ticks *)

Section Ticks.

Variable B : Builtins.
Variable P : Platform.

Implicit Types (w : World).

Lemma fetch_pages_quiet fuel bc offset acc w :
  next_job_id (fetch_pages P fuel bc offset acc w).2 = next_job_id w
  ∧ ∃ l, api_log (fetch_pages P fuel bc offset acc w).2 = api_log w ++ l
         ∧ Forall is_fetch l.
Proof.
  revert offset acc w.
  induction fuel as [|fuel IH]; intros offset acc w; simpl.
  - split; [done|]. exists []. by rewrite app_nil_r.
  - run. destruct (get_business_account_gifts P bc offset) as [e|resp].
    { split; [done|]. eexists. split; [done|]. by repeat constructor. }
    destruct (truthy_str (next_offset resp)).
    + match goal with |- context [fetch_pages P fuel bc ?o ?a ?w1] =>
        destruct (IH o a w1) as (-> & l & -> & Hl) end.
      simpl. split; [done|]. rewrite <- app_assoc.
      eexists. split; [done|]. by constructor.
    + split; [done|]. eexists. split; [done|]. by repeat constructor.
Qed.

Lemma fetch_portfolio_quiet fuel user_id w :
  next_job_id (fetch_portfolio P fuel user_id w).2 = next_job_id w
  ∧ ∃ l, api_log (fetch_portfolio P fuel user_id w).2 = api_log w ++ l
         ∧ Forall is_fetch l.
Proof.
  unfold fetch_portfolio. run.
  destruct (truthy_str (connections (STATE w) !! pretty user_id)).
  2:{ split; [done|]. exists []. by rewrite app_nil_r. }
  destruct (fetch_pages_quiet fuel
              (default "" (connections (STATE w) !! pretty user_id))
              None [] w) as (Hn & l & Hl & Hf).
  destruct (fetch_pages P fuel _ None [] w) as [[r|e|] w1]; simpl in *;
    unfold State_save; run; eauto.
Qed.

(** The analysis changes nothing but the two caches and the state file, and
    the requests it sends all read from the platform. *)
Lemma analyze_portfolio_quiet fuel user_id w :
  connections (STATE (analyze_portfolio B P fuel user_id w).2)
    = connections (STATE w)
  ∧ chats (STATE (analyze_portfolio B P fuel user_id w).2) = chats (STATE w)
  ∧ settings (STATE (analyze_portfolio B P fuel user_id w).2)
    = settings (STATE w)
  ∧ job_queue (analyze_portfolio B P fuel user_id w).2 = job_queue w
  ∧ next_job_id (analyze_portfolio B P fuel user_id w).2 = next_job_id w
  ∧ console (analyze_portfolio B P fuel user_id w).2 = console w
  ∧ ∃ l, api_log (analyze_portfolio B P fuel user_id w).2 = api_log w ++ l
         ∧ Forall is_fetch l.
Proof.
  unfold analyze_portfolio. run.
  destruct (bool_decide (last_catalog (STATE w) = ∅)).
  - rewrite build_catalog_run. simpl.
    destruct (get_available_gifts P) as [e|gifts_obj]; simpl.
    { split_and!; try done. eexists. split; [done|]. by repeat constructor. }
    destruct (last_portfolio (STATE w) !! pretty user_id) as [cached|];
      simpl.
    { split_and!; try done. eexists. split; [done|]. by repeat constructor. }
    match goal with |- context [fetch_portfolio P fuel user_id ?w1] =>
      pose proof (fetch_portfolio_frame P fuel user_id w1)
        as (H1 & H2 & H3 & _ & H5 & H6);
      destruct (fetch_portfolio_quiet fuel user_id w1) as (H7 & l & Hl & Hf);
      destruct (fetch_portfolio P fuel user_id w1) as [[pf|e|] w2]
    end; simpl in *; split_and!; try done;
      rewrite Hl, <- app_assoc; eexists; (split; [done|]); by constructor.
  - destruct (last_portfolio (STATE w) !! pretty user_id) as [cached|];
      simpl.
    { split_and!; try done. exists []. by rewrite app_nil_r. }
    pose proof (fetch_portfolio_frame P fuel user_id w)
      as (H1 & H2 & H3 & _ & H5 & H6).
    destruct (fetch_portfolio_quiet fuel user_id w) as (H7 & l & Hl & Hf).
    destruct (fetch_portfolio P fuel user_id w) as [[pf|e|] w2];
      simpl in *; split_and!; eauto.
Qed.

(** X11: a tick leaves the connections, the chats, the settings and the job
    queue as they were, whatever happens in it. *)
Theorem watch_tick_frame fuel job w :
  connections (STATE (watch_tick B P fuel job w).2) = connections (STATE w)
  ∧ chats (STATE (watch_tick B P fuel job w).2) = chats (STATE w)
  ∧ settings (STATE (watch_tick B P fuel job w).2) = settings (STATE w)
  ∧ job_queue (watch_tick B P fuel job w).2 = job_queue w
  ∧ next_job_id (watch_tick B P fuel job w).2 = next_job_id w.
Proof.
  unfold watch_tick, try_except, watch_tick_try. run.
  pose proof (analyze_portfolio_quiet fuel (job_user_id job) w)
    as (H1 & H2 & H3 & H4 & H5 & _).
  destruct (analyze_portfolio B P fuel (job_user_id job) w)
    as [[[sugs info]|e|] w1]; simpl in *; [|done|done].
  destruct sugs as [|s0 sugs]; [done|].
  destruct (truthy_int (mjoin (chats (STATE w1) !! pretty (job_user_id job))));
    [|done].
  by destruct (send_message P _ _) as [e|[]].
Qed.

(** X12: a tick sends at most one message, after its requests to read from the
    platform: the message goes to the chat stored for the user of the job,
    which is then an integer other than zero, and starts with the heading. *)
Theorem watch_tick_messages fuel job w :
  ∃ l, api_log (watch_tick B P fuel job w).2 = api_log w ++ l
       ∧ (Forall is_fetch l
          ∨ ∃ l0 chat body,
              l = l0 ++ [SendMessage chat body]
              ∧ Forall is_fetch l0
              ∧ chat = mjoin (chats (STATE w) !! pretty (job_user_id job))
              ∧ truthy_int chat = true
              ∧ String.prefix "Обновления по портфелю:" body = true).
Proof.
  unfold watch_tick, try_except, watch_tick_try. run.
  pose proof (analyze_portfolio_quiet fuel (job_user_id job) w)
    as (_ & H2 & _ & _ & _ & _ & l & Hl & Hf).
  destruct (analyze_portfolio B P fuel (job_user_id job) w)
    as [[[sugs info]|e|] w1]; simpl in *; [|by eauto|by eauto].
  destruct sugs as [|s0 sugs]; [by eauto|].
  rewrite H2.
  destruct (truthy_int (mjoin (chats (STATE w) !! pretty (job_user_id job))))
    eqn:Hchat; [|by eauto].
  match goal with |- context [send_message P ?c ?b] =>
    exists (l ++ [SendMessage c b]); split;
    [destruct (send_message P c b) as [e|[]]; simpl;
     by rewrite Hl, <- app_assoc|];
    right; exists l, c, b
  end.
  split_and!; try done; apply prefix_app_same.
Qed.

End Ticks.

(** ** More on the timers *)

Section MoreWatch.

Variable B : Builtins.
Variable P : Platform.
Variable DEFAULT_POLL_INTERVAL_SEC : Z.

Implicit Types (w : World) (j : Job).

Lemma filter_agree {A : Type} (Q1 Q2 : A → Prop)
    `{!∀ x, Decision (Q1 x)} `{!∀ x, Decision (Q2 x)} (l : list A) :
  (∀ x, x ∈ l → Q1 x ↔ Q2 x) → filter Q1 l = filter Q2 l.
Proof.
  induction l as [|x l IH]; intros Hl; [done|].
  rewrite !filter_cons.
  rewrite IH by (intros y Hy; apply Hl; by right).
  destruct (decide (Q1 x)) as [H1|H1], (decide (Q2 x)) as [H2|H2];
    try done; destruct (Hl x); try (by left); tauto.
Qed.

Lemma filter_all {A : Type} (Q : A → Prop) `{!∀ x, Decision (Q x)}
    (l : list A) :
  (∀ x, x ∈ l → Q x) → filter Q l = l.
Proof.
  induction l as [|x l IH]; intros Hl; [done|].
  rewrite filter_cons_True by (apply Hl; left).
  f_equal. apply IH. intros y Hy. apply Hl. by right.
Qed.

Lemma NoDup_fmap_same {A C : Type} (f : A → C) (l : list A) :
  NoDup (f <$> l) → ∀ x y, x ∈ l → y ∈ l → f x = f y → x = y.
Proof.
  induction l as [|a l IH]; intros Hnd x y Hx Hy Hxy.
  - by apply not_elem_of_nil in Hx.
  - rewrite fmap_cons in Hnd. apply NoDup_cons in Hnd as [Ha Hnd].
    apply elem_of_cons in Hx as [->|Hx]; apply elem_of_cons in Hy as [->|Hy].
    + done.
    + destruct Ha. rewrite Hxy. apply list_elem_of_fmap. by exists y.
    + destruct Ha. rewrite <- Hxy. apply list_elem_of_fmap. by exists x.
    + by apply IH.
Qed.

Lemma watch_name_inj (user user' : Z) :
  "watch_" +:+ pretty user = "watch_" +:+ pretty user' → user = user'.
Proof. intros Heq. by apply pretty_Z_inj, (String.app_inj "watch_"). Qed.

(** The removal loop leaves in the queue the jobs that are none of the
    objects it is given. *)
Lemma removal_loop_filter (js : list Job) w :
  for_each js schedule_removal w =
    (Ok tt, {| STATE := STATE w; state_file := state_file w;
               job_queue := filter (λ j, job_id j ∉ job_id <$> js)
                                   (job_queue w);
               next_job_id := next_job_id w;
               api_log := api_log w; console := console w |}).
Proof.
  revert w. induction js as [|j0 js IH]; intros w.
  - simpl. unfold ret.
    rewrite filter_all by (intros j _; apply not_elem_of_nil).
    by destruct w.
  - simpl. unfold bind at 1. unfold schedule_removal at 1. run.
    rewrite IH. simpl. do 2 f_equal.
    rewrite list_filter_filter. apply list_filter_iff.
    intros j. rewrite not_elem_of_cons. tauto.
Qed.

(** The queue after the registration part of [watch_cmd]: with distinct job
    objects, the jobs under other names, in their order, then the new
    job. *)
Lemma register_queue user ms mp w :
  NoDup (job_id <$> job_queue w) →
  job_queue (watch_cmd_register B P DEFAULT_POLL_INTERVAL_SEC user ms mp w).2
  = filter (λ j, job_name j ≠ "watch_" +:+ pretty user) (job_queue w)
    ++ [armed_job DEFAULT_POLL_INTERVAL_SEC user w]
  ∧ next_job_id
      (watch_cmd_register B P DEFAULT_POLL_INTERVAL_SEC user ms mp w).2
    = S (next_job_id w).
Proof.
  intros Hnodup.
  unfold watch_cmd_register, State_save, get_jobs_by_name, run_repeating.
  run. rewrite removal_loop_filter. simpl.
  assert (Hq : filter
                 (λ j, job_id j ∉ job_id <$>
                         filter (λ j0, job_name j0 = "watch_" +:+ pretty user)
                                (job_queue w)) (job_queue w)
               = filter (λ j, job_name j ≠ "watch_" +:+ pretty user)
                        (job_queue w)).
  { apply filter_agree. intros j Hj. split.
    - intros Hnot Hname. apply Hnot. apply list_elem_of_fmap.
      exists j. split; [done|]. by apply list_elem_of_filter.
    - intros Hname Hid. apply list_elem_of_fmap in Hid as (j' & Hid & Hj').
      apply list_elem_of_filter in Hj' as [Hname' Hin'].
      assert (j = j'); [|by subst].
      by apply (NoDup_fmap_same job_id (job_queue w)). }
  by destruct (reply_text P _) as [e|[]]; simpl; rewrite Hq.
Qed.

Lemma watch_cmd_cases update args w :
  (watch_cmd B P DEFAULT_POLL_INTERVAL_SEC update args w).2 = w
  ∨ ∃ user ms mp,
      effective_user update = Some user
      ∧ min_stars_arg B args = Some ms
      ∧ min_pct_arg B args = Some mp
      ∧ watch_cmd B P DEFAULT_POLL_INTERVAL_SEC update args w
        = watch_cmd_register B P DEFAULT_POLL_INTERVAL_SEC user ms mp w.
Proof.
  destruct (effective_user update) as [user|] eqn:Huser.
  - pose proof (watch_cmd_run B P DEFAULT_POLL_INTERVAL_SEC
                  update args user w Huser) as Hrun.
    destruct (min_stars_arg B args) as [ms|];
      [destruct (min_pct_arg B args) as [mp|]|].
    + right. by exists user, ms, mp.
    + left. by destruct Hrun as [e ->].
    + left. by destruct Hrun as [e ->].
  - left. unfold watch_cmd. by rewrite Huser.
Qed.

(** [watch_cmd] keeps the jobs of the queue distinct objects made before
    the next one, whoever sends it and whatever its arguments. *)
Lemma watch_cmd_keeps_jobs_wf update args w :
  jobs_wf w →
  jobs_wf (watch_cmd B P DEFAULT_POLL_INTERVAL_SEC update args w).2.
Proof.
  intros [Hnodup Hlt].
  destruct (watch_cmd_cases update args w)
    as [->|(user & ms & mp & _ & _ & _ & ->)]; [done|].
  destruct (register_queue user ms mp w Hnodup) as [Hq Hnext].
  unfold jobs_wf. rewrite Hq, Hnext. split.
  - rewrite fmap_app. apply NoDup_app. split_and!.
    + eapply sublist_NoDup; [exact Hnodup|].
      apply fmap_sublist, sublist_filter.
    + intros i Hi Hnew. simpl in Hnew.
      apply list_elem_of_singleton in Hnew as ->.
      apply list_elem_of_fmap in Hi as (j & Hid & Hj).
      apply list_elem_of_filter in Hj as [_ Hj].
      rewrite Forall_forall in Hlt. specialize (Hlt j Hj). lia.
    + simpl. apply NoDup_singleton.
  - apply Forall_app. split.
    + apply Forall_forall. intros j Hj.
      apply list_elem_of_filter in Hj as [_ Hj].
      rewrite Forall_forall in Hlt. specialize (Hlt j Hj). lia.
    + apply Forall_singleton. simpl. lia.
Qed.

(** X13: a [/watch] of one user leaves the timers of every other user as they
    were. *)
Theorem watch_cmd_spares_other_users update args user other w :
  jobs_wf w →
  effective_user update = Some user →
  other ≠ user →
  timers_of other (watch_cmd B P DEFAULT_POLL_INTERVAL_SEC update args w).2
  = timers_of other w.
Proof.
  intros [Hnodup _] Huser Hother.
  destruct (watch_cmd_cases update args w)
    as [->|(user' & ms & mp & Huser' & _ & _ & ->)]; [done|].
  rewrite Huser in Huser'. injection Huser' as <-.
  destruct (register_queue user ms mp w Hnodup) as [Hq _].
  unfold timers_of. rewrite Hq, filter_app, list_filter_filter.
  rewrite filter_cons_False, filter_nil, app_nil_r.
  - apply list_filter_iff. intros j. split; [by intros [? _]|].
    intros Hname. split; [done|]. rewrite Hname.
    intros Heq. by apply watch_name_inj in Heq.
  - simpl. intros Heq. by apply watch_name_inj in Heq.
Qed.

(** X14: after a [/watch] whose arguments are read, the threshold the analysis
    uses for the user is the first argument as read, and the thresholds of
    the other users are as they were. *)
Theorem watch_cmd_sets_threshold update args user ms mp w :
  effective_user update = Some user →
  min_stars_arg B args = Some ms →
  min_pct_arg B args = Some mp →
  threshold
    (STATE (watch_cmd B P DEFAULT_POLL_INTERVAL_SEC update args w).2) user
  = ms
  ∧ ∀ other, other ≠ user →
      threshold
        (STATE (watch_cmd B P DEFAULT_POLL_INTERVAL_SEC update args w).2)
        other
      = threshold (STATE w) other.
Proof.
  intros Huser Hms Hmp.
  pose proof (watch_cmd_run B P DEFAULT_POLL_INTERVAL_SEC
                update args user w Huser) as Hrun.
  rewrite Hms, Hmp in Hrun. rewrite Hrun.
  destruct (watch_cmd_register_run B P DEFAULT_POLL_INTERVAL_SEC
              user ms mp w) as (q & body & -> & _).
  unfold threshold. simpl. split.
  - by rewrite lookup_insert_eq.
  - intros other Hother. rewrite lookup_insert_ne; [done|].
    intros Heq. by apply pretty_Z_inj in Heq.
Qed.

End MoreWatch.

(** ** The other handlers *)

Section MoreHandlers.

Variable B : Builtins.
Variable P : Platform.

Implicit Types (w : World).

Lemma all_int_insert (chats : gmap string (option Z)) (k : string) (c : Z) :
  map_Forall (λ _ v, is_Some v) (delete k chats) →
  map_Forall (λ _ v, is_Some v) (<[k := Some c]> chats).
Proof.
  intros Hall i v. destruct (decide (k = i)) as [->|Hne].
  - rewrite lookup_insert_eq. intros [= <-]. by eexists.
  - rewrite lookup_insert_ne by done. intros Hi.
    apply (Hall i). by rewrite lookup_delete_ne.
Qed.

(** A world whose state file holds the state as saved is read back as it
    is, when every value of [chats] is an integer and no float of the
    settings is an infinity or a NaN. *)
Lemma load_saved w :
  state_file w = Some (model_dump_json (STATE w)) →
  map_Forall (λ _ v, is_Some v) (chats (STATE w)) →
  map_Forall (λ _ x, finite_pct x) (settings (STATE w)) →
  State_load w = (Ok (STATE w), w).
Proof.
  intros Hfile Hchats Hset.
  assert (Hw : (State_save w).2 = w).
  { unfold State_save. run. rewrite <- Hfile. by destruct w. }
  rewrite <- Hw at 1 3. by apply (State_save_load w).
Qed.

(** X15: the update of a business connection stores the connection under the
    user, in place of any earlier one, and the chat of the update, or
    without one the chat already stored, as the chat of the user; it saves
    the state and sends one message, to that chat.  The connections and
    chats of the other users, the settings, the caches and the job queue are
    left as they were. *)
Theorem on_business_connection_binds update bc user w :
  business_connection update = Some bc →
  effective_user update = Some user →
  let w' := (on_business_connection P update w).2 in
  let chat := match effective_chat update with
              | Some c => Some c
              | None => mjoin (chats (STATE w) !! pretty user)
              end in
  connections (STATE w') !! pretty user = Some bc
  ∧ chats (STATE w') !! pretty user = Some chat
  ∧ (∀ other, other ≠ user →
       connections (STATE w') !! pretty other
         = connections (STATE w) !! pretty other
       ∧ chats (STATE w') !! pretty other = chats (STATE w) !! pretty other)
  ∧ settings (STATE w') = settings (STATE w)
  ∧ last_catalog (STATE w') = last_catalog (STATE w)
  ∧ last_portfolio (STATE w') = last_portfolio (STATE w)
  ∧ job_queue w' = job_queue w
  ∧ state_file w' = Some (model_dump_json (STATE w'))
  ∧ ∃ body, api_log w' = api_log w ++ [SendMessage chat body].
Proof.
  intros Hbc Huser. unfold on_business_connection.
  rewrite Hbc, Huser. unfold State_save. run.
  rewrite lookup_insert_eq. simpl.
  destruct (send_message P _ _) as [e|[]]; simpl.
  all: split_and!; try done; try apply lookup_insert_eq; try (by eexists).
  all: intros other Hother; rewrite !lookup_insert_ne; [done| |];
       intros Heq; by apply pretty_Z_inj in Heq.
Qed.

(** The first request of a fetch for a user with a connection asks for the
    first page over that connection, whether a portfolio is cached or not. *)
Lemma fetch_portfolio_first_page fuel user_id bc w :
  connections (STATE w) !! pretty user_id = Some bc →
  bc ≠ "" →
  ∃ l, api_log (fetch_portfolio P (S fuel) user_id w).2
       = api_log w ++ GetBusinessAccountGifts bc None :: l.
Proof.
  intros Hconn Hbc. unfold fetch_portfolio. run. rewrite Hconn. simpl.
  rewrite bool_decide_eq_false_2 by done. simpl. run.
  destruct (get_business_account_gifts P bc None) as [e|resp];
    [by exists []|].
  destruct (truthy_str (next_offset resp)).
  - match goal with |- context [fetch_pages P fuel bc ?o ?a ?w1] =>
      destruct (fetch_pages_log P fuel bc o a w1) as [l Hl];
      destruct (fetch_pages P fuel bc o a w1) as [[r|e|] w2]
    end; simpl in *; unfold State_save; run;
      rewrite Hl, <- app_assoc; by eexists.
  - unfold State_save. run. by exists [].
Qed.

(** X16: after the update of a business connection, a [/portfolio] of the user
    reads the gifts over the new connection, from the first page, cached
    portfolio or not. *)
Theorem connection_then_portfolio update update' bc user fuel w :
  business_connection update = Some bc →
  bc ≠ "" →
  effective_user update = Some user →
  effective_user update' = Some user →
  let w1 := (on_business_connection P update w).2 in
  ∃ l, api_log (portfolio_cmd P (S fuel) update' w1).2
       = api_log w1 ++ GetBusinessAccountGifts bc None :: l.
Proof.
  intros Hbc Hne Huser Huser' w1.
  assert (Hconn : connections (STATE w1) !! pretty user = Some bc).
  { unfold w1, on_business_connection. rewrite Hbc, Huser.
    unfold State_save. run.
    destruct (send_message P _ _) as [e|[]]; simpl; apply lookup_insert_eq. }
  unfold portfolio_cmd. rewrite Huser'. run.
  destruct (fetch_portfolio_first_page fuel user bc w1 Hconn Hne) as [l Hl].
  destruct (fetch_portfolio P (S fuel) user w1) as [[pf|e|] w2]; simpl in *;
    [|by eauto|by eauto].
  destruct (reply_text P _) as [e|[]]; simpl;
    rewrite Hl, <- app_assoc; by eexists.
Qed.

(** X17: [/start] of a user stores the chat of the command as the chat of the
    user, whatever was stored, saves the state and sends its text; when the
    chats of the other users are integers, all chats are after it. *)
Theorem start_binds_chat update user w :
  cu_user update = Some user →
  let w' := (start P update w).2 in
  chats (STATE w')
    = <[pretty user := Some (cu_chat update)]> (chats (STATE w))
  ∧ (map_Forall (λ _ v, is_Some v) (delete (pretty user) (chats (STATE w))) →
     map_Forall (λ _ v, is_Some v) (chats (STATE w')))
  ∧ connections (STATE w') = connections (STATE w)
  ∧ settings (STATE w') = settings (STATE w)
  ∧ job_queue w' = job_queue w
  ∧ state_file w' = Some (model_dump_json (STATE w'))
  ∧ api_log w' = api_log w ++ [ReplyText start_text].
Proof.
  intros Huser. unfold start. rewrite Huser. unfold State_save. run.
  destruct (reply_text P start_text) as [e|[]]; simpl;
    split_and!; try done; apply all_int_insert.
Qed.

(** X18: a user who sends [/start] and then connects the bot keeps the chat of
    the [/start]: the connection is confirmed in that chat, and the state
    saved is read back as it is when the chats of the other users are
    integers and the settings hold no infinity or NaN. *)
Theorem start_then_connection_keeps_chat first update bc user w :
  cu_user first = Some user →
  business_connection update = Some bc →
  effective_user update = Some user →
  effective_chat update = None →
  let w1 := (start P first w).2 in
  let w2 := (on_business_connection P update w1).2 in
  chats (STATE w2) !! pretty user = Some (Some (cu_chat first))
  ∧ (∃ body,
       api_log w2 = api_log w1 ++ [SendMessage (Some (cu_chat first)) body])
  ∧ (map_Forall (λ _ v, is_Some v) (delete (pretty user) (chats (STATE w))) →
     map_Forall (λ _ x, finite_pct x) (settings (STATE w)) →
     State_load w2 = (Ok (STATE w2), w2)).
Proof.
  intros Hfirst Hbc Huser Hchat w1 w2.
  assert (H1 : chats (STATE w1)
               = <[pretty user := Some (cu_chat first)]> (chats (STATE w))
               ∧ settings (STATE w1) = settings (STATE w)).
  { unfold w1, start. rewrite Hfirst. unfold State_save. run.
    by destruct (reply_text P start_text) as [e|[]]. }
  destruct H1 as [Hchats1 Hset1].
  assert (H2 : chats (STATE w2)
               = <[pretty user := Some (cu_chat first)]> (chats (STATE w1))
               ∧ settings (STATE w2) = settings (STATE w1)
               ∧ state_file w2 = Some (model_dump_json (STATE w2))
               ∧ ∃ body, api_log w2
                   = api_log w1 ++ [SendMessage (Some (cu_chat first)) body]).
  { unfold w2, on_business_connection. rewrite Hbc, Huser, Hchat.
    unfold State_save. run. rewrite lookup_insert_eq, Hchats1.
    rewrite lookup_insert_eq. simpl.
    destruct (send_message P _ _) as [e|[]]; simpl;
      split_and!; try done; by eexists. }
  destruct H2 as (Hchats2 & Hset2 & Hfile & Hlog).
  split_and!; [|exact Hlog|].
  - rewrite Hchats2. apply lookup_insert_eq.
  - intros Hall Hfin. apply load_saved; [done| |].
    + rewrite Hchats2, Hchats1, insert_insert_eq.
      by apply all_int_insert.
    + by rewrite Hset2, Hset1.
Qed.

Lemma render_concat_prefix (sep : string) (s0 : Suggestion)
    (rest : list Suggestion) :
  String.prefix "• <b>" (String.concat sep (render <$> s0 :: rest)) = true.
Proof.
  rewrite fmap_cons. unfold render at 1.
  destruct (render <$> rest) as [|x xs]; simpl String.concat.
  - apply prefix_app_same.
  - rewrite append_assoc. apply prefix_app_same.
Qed.

(** X19: the requests of [/analyze] of a user read from the platform, but for
    one reply at the end; the handler ends normally only after that reply,
    and the reply has a text, which starts with the mark of the first
    suggestion. *)
Theorem analyze_cmd_reply fuel update user w :
  effective_user update = Some user →
  ∃ l, api_log (analyze_cmd B P fuel update w).2 = api_log w ++ l
       ∧ ((Forall is_fetch l ∧ (analyze_cmd B P fuel update w).1 ≠ Ok tt)
          ∨ ∃ l0 body,
              l = l0 ++ [ReplyText body]
              ∧ Forall is_fetch l0
              ∧ String.prefix "• <b>" body = true).
Proof.
  intros Huser. unfold analyze_cmd. rewrite Huser. run.
  pose proof (analyze_portfolio_quiet B P fuel user w)
    as (_ & _ & _ & _ & _ & _ & l & Hl & Hf).
  pose proof (analyze_portfolio_Ok B P fuel user w) as Hok.
  destruct (analyze_portfolio B P fuel user w) as [[res|e|] w1]; simpl in *;
    [|by eauto|by eauto].
  destruct (Hok res w1 eq_refl) as (Hres & _).
  assert (Hne : res.1 ≠ []).
  { rewrite Hres, suggestions_for_fired. by destruct (fired _ _ _ _ _ _). }
  destruct res.1 as [|s0 rest] eqn:Hsugs; [done|].
  match goal with |- context [reply_text P ?b] =>
    exists (l ++ [ReplyText b]); split;
    [destruct (reply_text P b) as [e|[]]; simpl;
     by rewrite Hl, <- app_assoc|];
    right; exists l, b
  end.
  split_and!; try done. apply render_concat_prefix.
Qed.

(** X20: after a [/portfolio] of a user with a connection that ended normally,
    the portfolio it fetched is the cached one; with a cached catalog, the
    analysis of the user then sends no request and works on that
    portfolio. *)
Theorem portfolio_cmd_then_analysis fuel fuel' update user w w1 :
  effective_user update = Some user →
  portfolio_cmd P fuel update w = (Ok tt, w1) →
  truthy_str (connections (STATE w) !! pretty user) = true →
  last_catalog (STATE w) ≠ ∅ →
  ∃ pf,
    (fetch_portfolio P fuel user w).1 = Ok pf
    ∧ last_portfolio (STATE w1) !! pretty user = Some pf
    ∧ analyze_portfolio B P fuel' user w1 =
        (Ok (suggestions_for B P (last_catalog (STATE w)) (gifts pf)
               (quotes_for P pf) (threshold (STATE w) user),
             (pf, (map_to_list (last_catalog (STATE w))).*2)), w1).
Proof.
  intros Huser Hrun Hconn Hcat. revert Hrun.
  unfold portfolio_cmd. rewrite Huser. run.
  assert (Hfetch : ∀ pf w0, fetch_portfolio P fuel user w = (Ok pf, w0) →
            last_portfolio (STATE w0) !! pretty user = Some pf
            ∧ last_catalog (STATE w0) = last_catalog (STATE w)
            ∧ settings (STATE w0) = settings (STATE w)).
  { intros pf w0. unfold fetch_portfolio. run. rewrite Hconn.
    pose proof (fetch_pages_frame P fuel
                  (default "" (connections (STATE w) !! pretty user))
                  None [] w) as (HS & _).
    destruct (fetch_pages P fuel _ None [] w) as [[r|e|] w2]; simpl in *;
      [|done|done].
    unfold State_save. run. intros [= <- <-]. simpl. rewrite HS.
    split_and!; try done. apply lookup_insert_eq. }
  destruct (fetch_portfolio P fuel user w) as [[pf|e|] w0]; simpl;
    [|done|done].
  destruct (Hfetch pf w0 eq_refl) as (Hpf & Hc & Hs).
  destruct (reply_text P _) as [e|[]]; [done|].
  intros [= <-]. exists pf. split_and!; try done.
  rewrite (analyze_portfolio_cached B P fuel' user _ pf); simpl.
  - unfold threshold. simpl. by rewrite Hc, Hs.
  - by rewrite Hc.
  - done.
Qed.

End MoreHandlers.

(** ** Amounts as text *)

Lemma length_append (a b : string) :
  String.length (a +:+ b) = (String.length a + String.length b)%nat.
Proof.
  induction a as [|c a IH]; [done|].
  change (S (String.length (a +:+ b))
          = S (String.length a + String.length b)).
  by rewrite IH.
Qed.

Lemma append_cancel_r (a b s : string) : a +:+ s = b +:+ s → a = b.
Proof.
  revert b. induction a as [|c a IH]; intros [|c' b] Heq.
  - done.
  - apply (f_equal String.length) in Heq.
    rewrite !length_append in Heq. simpl in Heq. lia.
  - apply (f_equal String.length) in Heq.
    rewrite !length_append in Heq. simpl in Heq. lia.
  - change (String c (a +:+ s) = String c' (b +:+ s)) in Heq.
    injection Heq as -> Heq. f_equal. by apply IH.
Qed.

(** X21: [fmt_stars] writes different amounts differently, and no amount as the
    dash of an absent one. *)
Theorem fmt_stars_inj (a b : option Z) : fmt_stars a = fmt_stars b → a = b.
Proof.
  destruct a as [x|], b as [y|]; simpl; intros Heq.
  - apply append_cancel_r in Heq. f_equal. by apply pretty_Z_inj.
  - apply (f_equal String.length) in Heq.
    rewrite length_append in Heq.
    change (String.length " ⭐") with 4%nat in Heq.
    change (String.length "—") with 3%nat in Heq. lia.
  - apply (f_equal String.length) in Heq.
    rewrite length_append in Heq.
    change (String.length " ⭐") with 4%nat in Heq.
    change (String.length "—") with 3%nat in Heq. lia.
  - done.
Qed.

(** * Further examples *)

Lemma build_catalog_replaces_cache_witness :
  build_catalog catalog_platform fresh_world
  = (Ok [example_entry], (build_catalog catalog_platform fresh_world).2)
  ∧ last_catalog (STATE (build_catalog catalog_platform fresh_world).2) !! "g1"
    = last (filter (λ g, c_id g = "g1") [example_entry]).
Proof.
  assert (Hrun : build_catalog catalog_platform fresh_world
                 = (Ok [example_entry],
                    (build_catalog catalog_platform fresh_world).2))
    by (vm_compute; reflexivity).
  split; [exact Hrun|].
  destruct (build_catalog_replaces_cache catalog_platform fresh_world
              [example_entry] _ Hrun) as (_ & _ & Hcache & _).
  apply Hcache.
Defined.

Lemma fetch_portfolio_all_or_nothing_witness :
  (fetch_portfolio failing_platform 1 7 connected_world).1
  = Raise (TelegramError "Timed out")
  ∧ STATE (fetch_portfolio failing_platform 1 7 connected_world).2
    = STATE connected_world.
Proof.
  assert (Hrun : (fetch_portfolio failing_platform 1 7 connected_world).1
                 = Raise (TelegramError "Timed out")) by (by vm_compute).
  split; [exact Hrun|].
  apply (fetch_portfolio_all_or_nothing failing_platform 1 7 connected_world).
  intros pf. rewrite Hrun. discriminate.
Defined.

Lemma fetch_two_pages_run :
  fetch_portfolio paged_platform 2 7 connected_world
  = (Ok {| total_count := 2;
           gifts := [Regular r_150;
                     Unique {| u_gift_id := None; u_gift_title := "Unique";
                               rank := None; can_be_transferred := Some true;
                               transfer_star_count := None;
                               next_transfer_date := None |}];
           ts := Some (time_now paged_platform) |},
     (fetch_portfolio paged_platform 2 7 connected_world).2).
Proof. vm_compute. reflexivity. Defined.

Lemma fetch_portfolio_caches_witness :
  truthy_str (connections (STATE connected_world) !! pretty 7) = true
  ∧ ts {| total_count := 2;
          gifts := [Regular r_150;
                    Unique {| u_gift_id := None; u_gift_title := "Unique";
                              rank := None; can_be_transferred := Some true;
                              transfer_star_count := None;
                              next_transfer_date := None |}];
          ts := Some (time_now paged_platform) |}
    = Some (time_now paged_platform)
  ∧ state_file (fetch_portfolio paged_platform 2 7 connected_world).2
    = Some (model_dump_json
              (STATE (fetch_portfolio paged_platform 2 7 connected_world).2)).
Proof.
  assert (Hconn : truthy_str (connections (STATE connected_world) !! pretty 7)
                  = true) by (by vm_compute).
  split; [exact Hconn|].
  destruct (fetch_portfolio_caches paged_platform 2 7 connected_world _ _
              fetch_two_pages_run Hconn) as (_ & Hts & Hfile & _).
  split; [exact Hts|exact Hfile].
Defined.

Lemma fetched_titles_nonempty_witness :
  Forall (λ g, gift_title g ≠ "")
    [Regular r_150;
     Unique {| u_gift_id := None; u_gift_title := "Unique";
               rank := None; can_be_transferred := Some true;
               transfer_star_count := None; next_transfer_date := None |}].
Proof.
  apply (fetched_titles_nonempty paged_platform 2 7 connected_world _ _
           fetch_two_pages_run).
Defined.

Lemma analyze_unconnected_user_witness :
  last_portfolio (STATE (example_world example_portfolio)) !! pretty 8 = None
  ∧ truthy_str
      (connections (STATE (example_world example_portfolio)) !! pretty 8)
    = false
  ∧ analyze_portfolio example_runtime failing_platform 0 8
      (example_world example_portfolio)
    = (Ok ([placeholder],
           ({| total_count := 0; gifts := []; ts := None |},
            (map_to_list
               (last_catalog (STATE (example_world example_portfolio)))).*2)),
       example_world example_portfolio).
Proof.
  assert (Hpf : last_portfolio (STATE (example_world example_portfolio))
                  !! pretty 8 = None) by (by vm_compute).
  assert (Hconn : truthy_str
                    (connections (STATE (example_world example_portfolio))
                       !! pretty 8) = false) by (by vm_compute).
  split; [exact Hpf|]. split; [exact Hconn|].
  apply (analyze_unconnected_user example_runtime failing_platform 0 8
           (example_world example_portfolio)
           (example_catalog_filled example_portfolio) Hpf Hconn).
Defined.

Lemma empty_catalog_is_fetched_again_witness :
  get_available_gifts quiet_platform = inr []
  ∧ last_catalog
      (STATE (analyze_portfolio example_runtime quiet_platform 0 7
                fresh_world).2) = ∅.
Proof.
  split; [reflexivity|].
  apply (empty_catalog_is_fetched_again example_runtime quiet_platform 0 7
           fresh_world eq_refl eq_refl).
Defined.

Lemma at_most_one_suggestion_per_item_witness :
  (length [convert_suggestion r_150 (Some 150%Z);
           upgrade_suggestion r_50 (Some 25%Z);
           ready_suggestion u_free ready_details]
   ≤ Nat.max 1 (length (gifts example_portfolio)))%nat.
Proof.
  apply (at_most_one_suggestion_per_item example_runtime quiet_platform 0 7
           (example_world example_portfolio) _ _ analyze_example_portfolio).
Defined.

Lemma example_chats_are_integers :
  map_Forall (λ _ v, is_Some v)
    (chats (STATE (example_world example_portfolio))).
Proof. apply map_Forall_singleton. by eexists. Defined.

Lemma example_settings_are_finite :
  map_Forall (λ _ x, finite_pct x)
    (settings (STATE (example_world example_portfolio))).
Proof. apply map_Forall_singleton. exact I. Defined.

Lemma State_roundtrip_wellformed_witness :
  State_load (State_save (example_world example_portfolio)).2
  = (Ok (STATE (example_world example_portfolio)),
     (State_save (example_world example_portfolio)).2).
Proof.
  apply (State_roundtrip_wellformed (example_world example_portfolio)
           example_chats_are_integers example_settings_are_finite).
Defined.

Lemma State_reload_is_stable_witness :
  (State_load (example_world example_portfolio)).1
  = Ok (example_state example_portfolio)
  ∧ State_load (State_save crowded_world).2
    = (Ok (example_state example_portfolio), (State_save crowded_world).2).
Proof.
  assert (Hload : (State_load (example_world example_portfolio)).1
                  = Ok (example_state example_portfolio))
    by (vm_compute; reflexivity).
  split; [exact Hload|].
  apply (State_reload_is_stable (example_world example_portfolio)
           (example_state example_portfolio) crowded_world Hload eq_refl).
Defined.

Lemma crowded_jobs_wf : jobs_wf crowded_world.
Proof.
  split.
  - simpl. repeat (apply NoDup_cons; split;
                   [rewrite ?elem_of_cons, ?elem_of_nil; lia|]).
    apply NoDup_nil_2.
  - simpl. repeat constructor.
Defined.

Lemma watch_cmd_keeps_jobs_wf_witness :
  jobs_wf crowded_world
  ∧ jobs_wf (watch_cmd example_runtime quiet_platform 1800 command_update
               ["100"; "5"] crowded_world).2.
Proof.
  split; [exact crowded_jobs_wf|].
  apply (watch_cmd_keeps_jobs_wf example_runtime quiet_platform 1800
           command_update ["100"; "5"] crowded_world crowded_jobs_wf).
Defined.

Lemma watch_cmd_spares_other_users_witness :
  timers_of 8
    (watch_cmd example_runtime quiet_platform 1800 command_update
       ["100"; "5"] crowded_world).2
  = timers_of 8 crowded_world.
Proof.
  apply (watch_cmd_spares_other_users example_runtime quiet_platform 1800
           command_update ["100"; "5"] 7 8 crowded_world crowded_jobs_wf
           eq_refl).
  lia.
Defined.

Lemma watch_cmd_sets_threshold_witness :
  min_stars_arg example_runtime ["250"; "5"] = Some 250
  ∧ threshold
      (STATE (watch_cmd example_runtime quiet_platform 1800 command_update
                ["250"; "5"] crowded_world).2) 7 = 250.
Proof.
  split; [reflexivity|].
  apply (watch_cmd_sets_threshold example_runtime quiet_platform 1800
           command_update ["250"; "5"] 7 250 (FFinite (inject_Z 5))
           crowded_world eq_refl eq_refl eq_refl).
Defined.

Lemma on_business_connection_binds_witness :
  connections
    (STATE (on_business_connection quiet_platform connect_update
              crowded_world).2) !! pretty 7 = Some "bc7"
  ∧ chats
      (STATE (on_business_connection quiet_platform connect_update
                crowded_world).2) !! pretty 7 = Some (Some 42).
Proof.
  destruct (on_business_connection_binds quiet_platform connect_update
              "bc7" 7 crowded_world eq_refl eq_refl) as (Hconn & Hchat & _).
  split; [exact Hconn|exact Hchat].
Defined.

Lemma connection_then_portfolio_witness :
  ∃ l,
    api_log
      (portfolio_cmd paged_platform 2 command_update
         (on_business_connection paged_platform connect_update
            fresh_world).2).2
    = api_log (on_business_connection paged_platform connect_update
                 fresh_world).2
      ++ GetBusinessAccountGifts "bc7" None :: l.
Proof.
  apply (connection_then_portfolio paged_platform connect_update
           command_update "bc7" 7 1 fresh_world eq_refl);
    [discriminate|reflexivity|reflexivity].
Defined.

Lemma start_binds_chat_witness :
  chats (STATE (start quiet_platform start_update fresh_world).2)
  = <[pretty 7 := Some 42]> (chats (STATE fresh_world)).
Proof.
  apply (start_binds_chat quiet_platform start_update 7 fresh_world eq_refl).
Defined.

Lemma start_then_connection_keeps_chat_witness :
  chats
    (STATE (on_business_connection quiet_platform connect_update
              (start quiet_platform start_update fresh_world).2).2)
    !! pretty 7 = Some (Some 42)
  ∧ State_load
      (on_business_connection quiet_platform connect_update
         (start quiet_platform start_update fresh_world).2).2
    = (Ok (STATE (on_business_connection quiet_platform connect_update
                    (start quiet_platform start_update fresh_world).2).2),
       (on_business_connection quiet_platform connect_update
          (start quiet_platform start_update fresh_world).2).2).
Proof.
  destruct (start_then_connection_keeps_chat quiet_platform start_update
              connect_update "bc7" 7 fresh_world
              eq_refl eq_refl eq_refl eq_refl) as (Hchat & _ & Hload).
  split; [exact Hchat|].
  apply Hload.
  - intros k v Hk. vm_compute in Hk. discriminate.
  - apply map_Forall_empty.
Defined.

Lemma analyze_cmd_reply_witness :
  ∃ l,
    api_log (analyze_cmd example_runtime quiet_platform 0 command_update
               (example_world example_portfolio)).2
    = api_log (example_world example_portfolio) ++ l
    ∧ ((Forall is_fetch l
        ∧ (analyze_cmd example_runtime quiet_platform 0 command_update
             (example_world example_portfolio)).1 ≠ Ok tt)
       ∨ ∃ l0 body,
           l = l0 ++ [ReplyText body]
           ∧ Forall is_fetch l0
           ∧ String.prefix "• <b>" body = true).
Proof.
  apply (analyze_cmd_reply example_runtime quiet_platform 0 command_update 7
           (example_world example_portfolio) eq_refl).
Defined.

Lemma portfolio_cmd_then_analysis_witness :
  ∃ pf,
    (fetch_portfolio paged_platform 2 7 (example_world locked_portfolio)).1
    = Ok pf
    ∧ last_portfolio
        (STATE (portfolio_cmd paged_platform 2 command_update
                  (example_world locked_portfolio)).2) !! pretty 7 = Some pf
    ∧ analyze_portfolio example_runtime paged_platform 0 7
        (portfolio_cmd paged_platform 2 command_update
           (example_world locked_portfolio)).2
      = (Ok (suggestions_for example_runtime paged_platform
               (last_catalog (STATE (example_world locked_portfolio)))
               (gifts pf) (quotes_for paged_platform pf)
               (threshold (STATE (example_world locked_portfolio)) 7),
             (pf, (map_to_list
                     (last_catalog
                        (STATE (example_world locked_portfolio)))).*2)),
         (portfolio_cmd paged_platform 2 command_update
            (example_world locked_portfolio)).2).
Proof.
  apply (portfolio_cmd_then_analysis example_runtime paged_platform 2 0
           command_update 7 (example_world locked_portfolio)
           (portfolio_cmd paged_platform 2 command_update
              (example_world locked_portfolio)).2 eq_refl).
  - vm_compute. reflexivity.
  - by vm_compute.
  - apply example_catalog_filled.
Defined.

Lemma fmt_stars_inj_witness :
  fmt_stars (Some 150) = fmt_stars (Some 150) ∧ Some 150 = Some 150.
Proof.
  split; [reflexivity|].
  apply (fmt_stars_inj (Some 150) (Some 150) eq_refl).
Defined.
